(** * The Mental Coach chat client: API client and conversation controller

    A shallow embedding of the two TypeScript modules of the frontend,
    [lib/api.ts] (base-address resolution, error classification and
    [sendMessage]) and [app/page.tsx] (the [handleSubmit] handler of the
    chat page), followed by the properties of the written specification
    that these modules decide.

    Conventions of the embedding.
    - A JavaScript string is the [string] of its UTF-8 bytes.  The
      string operations the code uses ([includes], [trim], [||] on a
      possibly missing string, template literals) are defined in [Js]:
      concatenation and the search for a substring are the same on the
      bytes as on the characters, and [trim] recognises every white-space
      character of the language by its bytes.
    - An [async] function is a function into [Promise]: a promise that has
      settled, either fulfilled with a value or rejected with the thrown
      value.  [await] is the bind of that monad, [try]/[catch] its handler.
    - The network is a parameter: [fetch] maps the request to the way the
      network answers it.
    - [console.log] calls and [e.preventDefault()] do not touch the state
      the properties talk about and are left out. *)

From Stdlib Require Import String Ascii List Bool Arith Lia DecimalString Sorted.
Import ListNotations.
Open Scope string_scope.

(* ===================================================================== *)
(** ** JavaScript values and operations used by the client *)
(* ===================================================================== *)

Module Js.

(** [s.startsWith(p)] *)
Fixpoint startsWith (s p : string) {struct p} : bool :=
  match p with
  | EmptyString => true
  | String c p' =>
      match s with
      | EmptyString => false
      | String a s' => Ascii.eqb a c && startsWith s' p'
      end
  end.

(** [haystack.includes(needle)]: [needle] occurs in [haystack] as a
    contiguous, case-sensitive substring. *)
Fixpoint includes (haystack needle : string) : bool :=
  match haystack with
  | EmptyString => startsWith EmptyString needle
  | String _ rest => startsWith haystack needle || includes rest needle
  end.

(** Membership of one character in a string. *)
Fixpoint occurs (c : ascii) (s : string) : bool :=
  match s with
  | EmptyString => false
  | String a rest => Ascii.eqb a c || occurs c rest
  end.

(** White space as [String.prototype.trim] sees it: the WhiteSpace and
    LineTerminator characters of ECMAScript, each recognised by its
    UTF-8 bytes.

    One byte: U+0009 TAB, U+000A LF, U+000B VT, U+000C FF, U+000D CR and
    U+0020 SPACE. *)
Definition isWhiteSpace1 (a : ascii) : bool :=
  let x := nat_of_ascii a in
  (((9 <=? x) && (x <=? 13)) || (x =? 32))%nat.

(** Two bytes: U+00A0 NO-BREAK SPACE (C2 A0). *)
Definition isWhiteSpace2 (a b : ascii) : bool :=
  ((nat_of_ascii a =? 194) && (nat_of_ascii b =? 160))%nat.

(** Three bytes: U+1680 (E1 9A 80), U+2000 to U+200A (E2 80 80 to
    E2 80 8A), U+2028 and U+2029 (E2 80 A8, E2 80 A9), U+202F
    (E2 80 AF), U+205F (E2 81 9F), U+3000 (E3 80 80) and U+FEFF
    (EF BB BF). *)
Definition isWhiteSpace3 (a b c : ascii) : bool :=
  let x := nat_of_ascii a in
  let y := nat_of_ascii b in
  let z := nat_of_ascii c in
  (((x =? 225) && (y =? 154) && (z =? 128))
   || ((x =? 226) && (y =? 128)
       && (((128 <=? z) && (z <=? 138)) || (z =? 168) || (z =? 169) || (z =? 175)))
   || ((x =? 226) && (y =? 129) && (z =? 159))
   || ((x =? 227) && (y =? 128) && (z =? 128))
   || ((x =? 239) && (y =? 187) && (z =? 191)))%nat.

(** The number of bytes of the white-space character [s] starts with,
    0 when it starts with none. *)
Definition whiteSpaceWidth (s : string) : nat :=
  match s with
  | EmptyString => 0
  | String a r1 =>
      if isWhiteSpace1 a then 1
      else match r1 with
           | EmptyString => 0
           | String b r2 =>
               if isWhiteSpace2 a b then 2
               else match r2 with
                    | EmptyString => 0
                    | String c _ => if isWhiteSpace3 a b c then 3 else 0
                    end
           end
  end.

(** [s.trimStart()]: the white-space characters [s] starts with are
    dropped, one character (one, two or three bytes) at a time. *)
Fixpoint trimStart (s : string) : string :=
  match s with
  | EmptyString => EmptyString
  | String a r1 =>
      if isWhiteSpace1 a then trimStart r1
      else match r1 with
           | EmptyString => s
           | String b r2 =>
               if isWhiteSpace2 a b then trimStart r2
               else match r2 with
                    | EmptyString => s
                    | String c r3 => if isWhiteSpace3 a b c then trimStart r3 else s
                    end
           end
  end.

(** A string made of white-space characters only (the empty string
    included). *)
Fixpoint blank (s : string) : bool :=
  match s with
  | EmptyString => true
  | String a r1 =>
      if isWhiteSpace1 a then blank r1
      else match r1 with
           | EmptyString => false
           | String b r2 =>
               if isWhiteSpace2 a b then blank r2
               else match r2 with
                    | EmptyString => false
                    | String c r3 => if isWhiteSpace3 a b c then blank r3 else false
                    end
           end
  end.

(** [s.trimEnd()]: what is left of [s] from the point on where only
    white space follows is dropped. *)
Fixpoint trimEnd (s : string) : string :=
  match s with
  | EmptyString => EmptyString
  | String c rest => if blank s then EmptyString else String c (trimEnd rest)
  end.

(** [s.trim()] *)
Definition trim (s : string) : string := trimEnd (trimStart s).

(** The string of the given bytes. *)
Definition utf8 (bytes : list nat) : string :=
  string_of_list_ascii (map ascii_of_nat bytes).

(** The decimal digits. *)
Definition isDigit (c : ascii) : bool :=
  let n := nat_of_ascii c in ((48 <=? n) && (n <=? 57))%nat.

(** Truthiness of a string: every string but the empty one. *)
Definition truthy (s : string) : bool := negb (s =? "").

(** [v || fallback] for a value that is a string or [undefined]. *)
Definition or_else (v : option string) (fallback : string) : string :=
  match v with
  | Some s => if truthy s then s else fallback
  | None => fallback
  end.

(** [`${n}`] for a non-negative integer: its decimal digits. *)
Definition show (n : nat) : string := NilEmpty.string_of_uint (Nat.to_uint n).

(** What a [throw] or a rejected promise carries.  The client only asks
    whether the value is an [Error] and, if so, reads its [message]. *)
Inductive Thrown : Type :=
| ErrorObject (message : string)
| OtherValue.

(** A settled promise. *)
Inductive Promise (A : Type) : Type :=
| Fulfilled (value : A)
| Rejected (reason : Thrown).

Arguments Fulfilled {A} value.
Arguments Rejected {A} reason.

(** [const x = await p; k x] *)
Definition await {A B : Type} (p : Promise A) (k : A -> Promise B) : Promise B :=
  match p with
  | Fulfilled x => k x
  | Rejected reason => Rejected reason
  end.

(** [p.catch(handler)], and [try { p } catch (e) { handler e }] *)
Definition catch {A : Type} (p : Promise A) (handler : Thrown -> Promise A) : Promise A :=
  match p with
  | Fulfilled x => Fulfilled x
  | Rejected reason => handler reason
  end.

(** [throw new Error(message)] *)
Definition throw_Error {A : Type} (message : string) : Promise A :=
  Rejected (ErrorObject message).

End Js.

Declare Scope promise_scope.
Delimit Scope promise_scope with promise.
Notation "x <- p ;; k" := (Js.await p (fun x => k))
  (at level 61, p at next level, right associativity) : promise_scope.

(* ===================================================================== *)
(** ** lib/api.ts *)
(* ===================================================================== *)

Module Api.
Import Js.
Local Open Scope promise_scope.

(** The execution context [getApiBaseUrl] looks at. *)
Record Runtime : Type := {
  (** [process.env.NEXT_PUBLIC_API_URL]; [None] when undefined *)
  NEXT_PUBLIC_API_URL : option string;
  (** [window.location.hostname]; [None] when
      [typeof window === 'undefined'] *)
  hostname : option string
}.

(** The part of [getApiBaseUrl] below the test of the override. *)
Definition fromContext (window_hostname : option string) : string :=
  match window_hostname with
  | Some h =>
      let isLocalhost := (h =? "localhost") || (h =? "127.0.0.1") in
      if isLocalhost then "http://localhost:8000" else ""
  | None => "http://localhost:8000"
  end.

Definition getApiBaseUrl (rt : Runtime) : string :=
  match NEXT_PUBLIC_API_URL rt with
  | Some url => if truthy url then url else fromContext (hostname rt)
  | None => fromContext (hostname rt)
  end.

Definition API_BASE_URL (rt : Runtime) : string := getApiBaseUrl rt.

Record ChatResponse : Type := { reply : string }.

(** The interface declares [detail: string]; the value comes out of an
    unchecked JSON parse and the code itself guards against a missing
    one, so absence is a value here. *)
Record ChatError : Type := { detail : option string }.

Definition quota_message : string :=
  "OpenAI API quota exceeded. Please check your OpenAI account billing and usage limits. You may need to add payment information or upgrade your plan.".
Definition api_key_message : string :=
  "OpenAI API key is not configured. Please set the OPENAI_API_KEY environment variable in your backend.".
Definition invalid_key_message : string :=
  "Invalid OpenAI API key. Please check your API key configuration.".
Definition rate_limit_message : string :=
  "Rate limit exceeded. Please wait a moment and try again.".

Definition parseErrorMessage (errorDetail : string) : string :=
  if includes errorDetail "insufficient_quota" || includes errorDetail "quota" then
    quota_message
  else if includes errorDetail "OPENAI_API_KEY" || includes errorDetail "api key" then
    api_key_message
  else if includes errorDetail "401" || includes errorDetail "unauthorized"
          || includes errorDetail "Invalid API key" then
    invalid_key_message
  else if includes errorDetail "429" || includes errorDetail "rate limit" then
    rate_limit_message
  else
    errorDetail.

(** What [fetch] resolves with.  The client reads [response.ok],
    [response.status] and [response.json()]; the parsed body is typed by
    the annotation at the place that reads it, [ChatResponse] where [ok]
    holds and [ChatError] where it does not.  A body that parses is
    taken to have the declared shape; [json] is rejected when the body
    is not JSON. *)
Inductive Response : Type :=
| OkResponse (status : nat) (json : Promise ChatResponse)
| FailedResponse (status : nat) (json : Promise ChatError).

Definition ok (response : Response) : bool :=
  match response with
  | OkResponse _ _ => true
  | FailedResponse _ _ => false
  end.

Definition status (response : Response) : nat :=
  match response with
  | OkResponse s _ => s
  | FailedResponse s _ => s
  end.

(** The Fetch standard sets [ok] exactly for the statuses 200 to 299. *)
Definition is2xx (s : nat) : bool := ((200 <=? s) && (s <=? 299))%nat.
Definition conforms (response : Response) : bool :=
  Bool.eqb (ok response) (is2xx (status response)).

(** [fetch(url, { method: 'POST', ..., body: JSON.stringify({ message }) })] *)
Definition Fetch : Type := string -> string -> Promise Response.

Definition connectivity_message : string :=
  "Unable to connect to the server. Please make sure the backend is running on http://localhost:8000".

(** [await response.json().catch(() => ({ detail: `HTTP error! status: ...` }))] *)
Definition errorDataOf (status : nat) (json : Promise ChatError) : Promise ChatError :=
  catch json (fun _ => Fulfilled {| detail := Some ("HTTP error! status: " ++ show status) |}).

(** The argument of [parseErrorMessage]:
    [errorData.detail || `Request failed with status ...`] *)
Definition errorDetailOf (status : nat) (errorData : ChatError) : string :=
  or_else (detail errorData) ("Request failed with status " ++ show status).

(** The body of the [try] block. *)
Definition sendMessage_try (fetch : Fetch) (url message : string) : Promise ChatResponse :=
  response <- fetch url message ;;
  match response with
  | FailedResponse status json =>
      errorData <- errorDataOf status json ;;
      let userFriendlyMessage := parseErrorMessage (errorDetailOf status errorData) in
      throw_Error userFriendlyMessage
  | OkResponse _ json =>
      data <- json ;;
      Fulfilled data
  end.

(** The [catch (error)] block. *)
Definition sendMessage_catch (error : Thrown) : Promise ChatResponse :=
  match error with
  | ErrorObject message =>
      if includes message "fetch" || includes message "Failed to fetch" then
        throw_Error connectivity_message
      else
        Rejected error
  | OtherValue => throw_Error "An unexpected error occurred"
  end.

Definition sendMessage (rt : Runtime) (fetch : Fetch) (message : string) : Promise ChatResponse :=
  let url := API_BASE_URL rt ++ "/api/chat" in
  catch (sendMessage_try fetch url message) sendMessage_catch.

End Api.

(* ===================================================================== *)
(** ** app/page.tsx *)
(* ===================================================================== *)

Module Page.
Import Js.

(** [new Date()]: the instant is supplied by the environment. *)
Definition Date : Type := nat.

Inductive Role : Type := user | assistant.

Record Message : Type := {
  role : Role;
  content : string;
  timestamp : Date
}.

(** The four [useState] cells of [Home]. *)
Record State : Type := {
  messages : list Message;
  input : string;
  isLoading : bool;
  error : option string
}.

Definition greeting : string :=
  "Hello! I'm your supportive mental coach. I'm here to help you with stress, motivation, habits, and confidence. What's on your mind today?".

(** The initial values of the cells. *)
Definition initial (now : Date) : State :=
  {| messages := [ {| role := assistant; content := greeting; timestamp := now |} ];
     input := "";
     isLoading := false;
     error := None |}.

(** [setMessages((prev) => [...prev, m])] *)
Definition appendMessage (m : Message) (s : State) : State :=
  {| messages := messages s ++ [m];
     input := input s; isLoading := isLoading s; error := error s |}.

Definition setInput (value : string) (s : State) : State :=
  {| messages := messages s;
     input := value; isLoading := isLoading s; error := error s |}.

Definition setIsLoading (b : bool) (s : State) : State :=
  {| messages := messages s;
     input := input s; isLoading := b; error := error s |}.

Definition setError (e : option string) (s : State) : State :=
  {| messages := messages s;
     input := input s; isLoading := isLoading s; error := e |}.

(** [handleSubmit] up to its [await]: the new state, and the argument
    of the [sendMessage] call when one is made. *)
Definition handleSubmit_dispatch (now : Date) (s : State) : State * option string :=
  if negb (truthy (trim (input s))) || isLoading s then
    (s, None)
  else
    let userMessage :=
      {| role := user; content := trim (input s); timestamp := now |} in
    let s1 := appendMessage userMessage s in
    let s2 := setInput "" s1 in
    let s3 := setIsLoading true s2 in
    let s4 := setError None s3 in
    (s4, Some (content userMessage)).

(** The text of the assistant entry that reports a failure. *)
Definition userFriendlyError (errorMessage : string) : string :=
  if includes errorMessage "quota" || includes errorMessage "billing" then
    "I'm unable to respond right now due to an API quota issue. " ++ errorMessage
  else if includes errorMessage "API key" then
    "Configuration issue: " ++ errorMessage
  else
    "Sorry, I encountered an error: " ++ errorMessage ++ ". Please try again.".

(** [handleSubmit] from the point where [sendMessage] has settled:
    the [try] continuation, the [catch] block and the [finally] block. *)
Definition handleSubmit_settle (now : Date) (outcome : Promise Api.ChatResponse)
    (s : State) : State :=
  let s' :=
    match outcome with
    | Fulfilled response =>
        let assistantMessage :=
          {| role := assistant; content := Api.reply response; timestamp := now |} in
        appendMessage assistantMessage s
    | Rejected err =>
        let errorMessage :=
          match err with
          | ErrorObject message => message
          | OtherValue => "Failed to get response. Please try again."
          end in
        let s1 := setError (Some errorMessage) s in
        let errorMsg :=
          {| role := assistant; content := userFriendlyError errorMessage;
             timestamp := now |} in
        appendMessage errorMsg s1
    end in
  setIsLoading false s'.

(** One whole run of [handleSubmit], [sendMessage] being [send]. *)
Definition handleSubmit (send : string -> Promise Api.ChatResponse)
    (submitted settled : Date) (s : State) : State :=
  match handleSubmit_dispatch submitted s with
  | (s', Some message) => handleSubmit_settle settled (send message) s'
  | (s', None) => s'
  end.

(** *** The page as a transition system

    The page together with the requests it has sent and that have not
    settled yet.  Handlers run one at a time and each sees the state the
    previous one left. *)
Record Session : Type := {
  view : State;
  inFlight : list string
}.

Inductive Event : Type :=
| Submit (now : Date)                      (* the form is submitted *)
| Change (value : string)                  (* [onChange] of the text field *)
| Settle (now : Date) (answer : Promise Api.Response).
                                           (* the network answers the oldest request *)

Definition start (now : Date) : Session :=
  {| view := initial now; inFlight := [] |}.

Definition step (rt : Api.Runtime) (ev : Event) (p : Session) : Session :=
  match ev with
  | Submit now =>
      match handleSubmit_dispatch now (view p) with
      | (s', Some message) => {| view := s'; inFlight := inFlight p ++ [message] |}
      | (s', None) => {| view := s'; inFlight := inFlight p |}
      end
  | Change value => {| view := setInput value (view p); inFlight := inFlight p |}
  | Settle now answer =>
      match inFlight p with
      | [] => p
      | message :: others =>
          let outcome := Api.sendMessage rt (fun _ _ => answer) message in
          {| view := handleSubmit_settle now outcome (view p); inFlight := others |}
      end
  end.

Definition run (rt : Api.Runtime) (events : list Event) (p : Session) : Session :=
  fold_left (fun q ev => step rt ev q) events p.

(** The role of the last entry of the log. *)
Definition lastRole (log : list Message) : option Role :=
  match rev log with
  | [] => None
  | m :: _ => Some (role m)
  end.

End Page.

(* ===================================================================== *)
(** ** The classifier as the specification words it *)
(* ===================================================================== *)

Module Reference.
Import Js.

(** One row of the table of categories: the substrings that trigger the
    category and its fixed message. *)
Record Rule : Type := {
  triggers : list string;
  result : string
}.

(** The table, in priority order. *)
Definition rules : list Rule :=
  [ {| triggers := ["insufficient_quota"; "quota"];
       result := Api.quota_message |};
    {| triggers := ["OPENAI_API_KEY"; "api key"];
       result := Api.api_key_message |};
    {| triggers := ["401"; "unauthorized"; "Invalid API key"];
       result := Api.invalid_key_message |};
    {| triggers := ["429"; "rate limit"];
       result := Api.rate_limit_message |} ].

Definition matches (detail : string) (r : Rule) : bool :=
  existsb (includes detail) (triggers r).

(** The message of the first rule that matches, the detail itself when
    none does. *)
Definition classify (detail : string) : string :=
  match find (matches detail) rules with
  | Some r => result r
  | None => detail
  end.

End Reference.

(* ===================================================================== *)
(** ** Notions used in the statements *)
(* ===================================================================== *)

Module Notions.
Import Js.

(** How a text made of fixed words followed by a status classifies
    (shown below for the two such texts the client builds): the digits
    of the status are the only place where a rule can match. *)
Definition statusText (words : string) (status : nat) : string :=
  if includes (show status) "401" then Api.invalid_key_message
  else if includes (show status) "429" then Api.rate_limit_message
  else words ++ show status.

(** The message the controller reads off a rejection. *)
Definition messageOf (err : Thrown) : string :=
  match err with
  | ErrorObject message => message
  | OtherValue => "Failed to get response. Please try again."
  end.

(** The text of the assistant entry a settled request adds. *)
Definition answerText (outcome : Promise Api.ChatResponse) : string :=
  match outcome with
  | Fulfilled response => Api.reply response
  | Rejected err => Page.userFriendlyError (messageOf err)
  end.

(** The Sending flag and the requests in flight agree: the flag is up
    with exactly one request out, or down with none; and the log ends
    with the user's entry exactly while the flag is up. *)
Definition coherent (p : Page.Session) : Prop :=
  (Page.isLoading (Page.view p) = true
   /\ (exists message, Page.inFlight p = [message])
   /\ Page.lastRole (Page.messages (Page.view p)) = Some Page.user)
  \/
  (Page.isLoading (Page.view p) = false
   /\ Page.inFlight p = []
   /\ Page.lastRole (Page.messages (Page.view p)) = Some Page.assistant).


End Notions.

(* ===================================================================== *)
(** ** app/page.tsx: what [Home] renders *)
(* ===================================================================== *)

Module Render.
Import Js.

(** The two styles of an entry, [styles.userMessage] and
    [styles.assistantMessage]. *)
Inductive Style : Type := userMessage | assistantMessage.

(** One entry of the messages container.  The time is shown through
    [toLocaleTimeString], which belongs to the browser; the row keeps
    the instant. *)
Record Row : Type := {
  className : Style;
  messageRole : string;
  messageText : string;
  messageTime : Page.Date
}.

(** The parts of the page that depend on the state. *)
Record View : Type := {
  rows : list Row;
  (** [{isLoading && (...)}]: the three-dot placeholder *)
  loadingIndicator : bool;
  (** [{error && (...)}]: the text of the banner, after its warning sign *)
  errorBanner : option string;
  inputValue : string;
  inputDisabled : bool;
  sendButtonDisabled : bool;
  sendButtonLabel : string
}.

Definition renderMessage (message : Page.Message) : Row :=
  {| className :=
       match Page.role message with
       | Page.user => userMessage
       | Page.assistant => assistantMessage
       end;
     messageRole :=
       match Page.role message with
       | Page.user => "You"
       | Page.assistant => "Coach"
       end;
     messageText := Page.content message;
     messageTime := Page.timestamp message |}.

Definition render (s : Page.State) : View :=
  {| rows := map renderMessage (Page.messages s);
     loadingIndicator := Page.isLoading s;
     errorBanner :=
       match Page.error s with
       | Some e => if truthy e then Some e else None
       | None => None
       end;
     inputValue := Page.input s;
     inputDisabled := Page.isLoading s;
     sendButtonDisabled := Page.isLoading s || negb (truthy (trim (Page.input s)));
     sendButtonLabel := if Page.isLoading s then "Sending..." else "Send" |}.

End Render.

(* ===================================================================== *)
(** ** Further notions used in the statements *)
(* ===================================================================== *)

Module Shapes.
Import Js.

(** The roles of [n] completed turns. *)
Fixpoint turns (n : nat) : list Page.Role :=
  match n with
  | 0 => []
  | S k => Page.user :: Page.assistant :: turns k
  end.

(** The last entry of a log. *)
Definition lastMessage (log : list Page.Message) : option Page.Message :=
  match rev log with
  | [] => None
  | m :: _ => Some m
  end.

(** [s] starts with a white-space character. *)
Definition startsWithWhiteSpace (s : string) : bool :=
  negb (whiteSpaceWidth s =? 0)%nat.

(** [s] ends with a white-space character: one of its ends, not empty,
    is made of white space only. *)
Fixpoint endsWithWhiteSpace (s : string) : bool :=
  match s with
  | EmptyString => false
  | String _ rest => blank s || endsWithWhiteSpace rest
  end.

(** The instants the events carry never go back, from [t] on. *)
Fixpoint ticking (t : Page.Date) (events : list Page.Event) : bool :=
  match events with
  | [] => true
  | Page.Submit now :: rest => (t <=? now)%nat && ticking now rest
  | Page.Change _ :: rest => ticking t rest
  | Page.Settle now _ :: rest => (t <=? now)%nat && ticking now rest
  end.


End Shapes.

(* ===================================================================== *)
(** ** Facts about the string operations *)
(* ===================================================================== *)

Section StringFacts.
Import Js.

Lemma startsWith_spec (h n : string) :
  startsWith h n = true <-> exists b, h = n ++ b.
Proof.
  revert h; induction n as [|c n IH]; intros h; simpl.
  - split; [intros _; now exists h | reflexivity].
  - destruct h as [|a h].
    + split; [discriminate | intros [b Hb]; discriminate].
    + rewrite andb_true_iff, Ascii.eqb_eq, IH. split.
      * intros [-> [b ->]]. now exists b.
      * intros [b Hb]. inversion Hb. split; [reflexivity | now exists b].
Qed.

(** [includes] is the substring relation. *)
Lemma includes_spec (h n : string) :
  includes h n = true <-> exists a b, h = a ++ n ++ b.
Proof.
  induction h as [|c h IH]; simpl.
  - rewrite startsWith_spec. split.
    + intros [b Hb]. now exists "", b.
    + intros [a [b Hab]]. destruct a; simpl in Hab.
      * now exists b.
      * discriminate.
  - rewrite orb_true_iff, IH, startsWith_spec. split.
    + intros [[b Hb] | [a [b Hab]]].
      * now exists "", b.
      * exists (String c a), b. simpl. now rewrite Hab.
    + intros [a [b Hab]]. destruct a as [|c' a]; simpl in Hab.
      * left. now exists b.
      * right. inversion Hab. now exists a, b.
Qed.

Lemma occurs_app (c : ascii) (a b : string) :
  occurs c (a ++ b) = occurs c a || occurs c b.
Proof.
  induction a as [|x a IH]; simpl; [reflexivity|].
  now rewrite IH, orb_assoc.
Qed.

(** Every character of a substring occurs in the string. *)
Lemma includes_occurs (h n : string) (c : ascii) :
  includes h n = true -> occurs c n = true -> occurs c h = true.
Proof.
  rewrite includes_spec. intros [a [b ->]] Hc.
  now rewrite !occurs_app, Hc, orb_true_r.
Qed.

(** A needle with a character the haystack lacks is not found. *)
Lemma includes_absent (h n : string) (c : ascii) :
  occurs c n = true -> occurs c h = false -> includes h n = false.
Proof.
  intros Hn Hh. destruct (includes h n) eqn:E; [|reflexivity].
  rewrite (includes_occurs h n c E Hn) in Hh. discriminate.
Qed.

(** A needle cannot start inside a prefix that lacks its first
    character. *)
Lemma includes_skip (p s n : string) (c : ascii) :
  occurs c p = false ->
  includes (p ++ s) (String c n) = includes s (String c n).
Proof.
  induction p as [|a p IH]; simpl; [reflexivity|].
  intros H. apply orb_false_iff in H as [Ha Hp].
  now rewrite (IH Hp), Ha.
Qed.

Lemma occurs_uint (c : ascii) (d : Decimal.uint) :
  occurs c (NilEmpty.string_of_uint d) = true -> isDigit c = true.
Proof.
  induction d; cbn [occurs NilEmpty.string_of_uint]; try discriminate;
    rewrite orb_true_iff; (intros [H | H]; [| now apply IHd]);
    apply Ascii.eqb_eq in H; now subst c.
Qed.

(** The decimal rendering of a number consists of digits. *)
Lemma occurs_show (c : ascii) (n : nat) :
  isDigit c = false -> occurs c (show n) = false.
Proof.
  intros Hc. destruct (occurs c (show n)) eqn:E; [|reflexivity].
  apply occurs_uint in E. congruence.
Qed.

(** Induction along the white-space characters a string starts with. *)
Lemma whiteSpace_ind (P : string -> Prop) :
  (forall s, whiteSpaceWidth s = 0 -> P s) ->
  (forall a r, isWhiteSpace1 a = true -> P r -> P (String a r)) ->
  (forall a b r, isWhiteSpace1 a = false -> isWhiteSpace2 a b = true ->
     P r -> P (String a (String b r))) ->
  (forall a b c r, isWhiteSpace1 a = false -> isWhiteSpace2 a b = false ->
     isWhiteSpace3 a b c = true -> P r -> P (String a (String b (String c r)))) ->
  forall s, P s.
Proof.
  intros H0 H1 H2 H3.
  assert (Hn : forall n s, String.length s <= n -> P s).
  { induction n as [|n IH]; intros s Hs.
    - destruct s; [now apply H0 | cbn in Hs; lia].
    - destruct s as [|a r1]; [now apply H0|].
      destruct (isWhiteSpace1 a) eqn:E1.
      { apply H1; [exact E1|]. apply IH. cbn in Hs. lia. }
      destruct r1 as [|b r2]; [apply H0; cbn; now rewrite E1|].
      destruct (isWhiteSpace2 a b) eqn:E2.
      { apply H2; [exact E1 | exact E2|]. apply IH. cbn in Hs. lia. }
      destruct r2 as [|c r3]; [apply H0; cbn; now rewrite E1, E2|].
      destruct (isWhiteSpace3 a b c) eqn:E3.
      { apply H3; [exact E1 | exact E2 | exact E3|]. apply IH. cbn in Hs. lia. }
      apply H0. cbn. now rewrite E1, E2, E3. }
  intros s. now apply (Hn (String.length s)).
Qed.

Lemma width_zero (s : string) :
  whiteSpaceWidth s = 0 -> trimStart s = s /\ (blank s = true -> s = "").
Proof.
  destruct s as [|a [|b [|c r]]]; cbn [whiteSpaceWidth trimStart blank];
    [now split | | |];
    destruct (isWhiteSpace1 a); try discriminate;
    try (destruct (isWhiteSpace2 a b); try discriminate);
    try (destruct (isWhiteSpace3 a b c); try discriminate);
    intros _; split; try reflexivity; discriminate.
Qed.

Lemma step1 (a : ascii) (r : string) :
  isWhiteSpace1 a = true ->
  trimStart (String a r) = trimStart r /\ blank (String a r) = blank r
  /\ whiteSpaceWidth (String a r) = 1.
Proof. intros E. cbn [trimStart blank whiteSpaceWidth]. now rewrite E. Qed.

Lemma step2 (a b : ascii) (r : string) :
  isWhiteSpace1 a = false -> isWhiteSpace2 a b = true ->
  trimStart (String a (String b r)) = trimStart r
  /\ blank (String a (String b r)) = blank r
  /\ whiteSpaceWidth (String a (String b r)) = 2.
Proof. intros E1 E2. cbn [trimStart blank whiteSpaceWidth]. now rewrite E1, E2. Qed.

Lemma step3 (a b c : ascii) (r : string) :
  isWhiteSpace1 a = false -> isWhiteSpace2 a b = false -> isWhiteSpace3 a b c = true ->
  trimStart (String a (String b (String c r))) = trimStart r
  /\ blank (String a (String b (String c r))) = blank r
  /\ whiteSpaceWidth (String a (String b (String c r))) = 3.
Proof. intros E1 E2 E3. cbn [trimStart blank whiteSpaceWidth]. now rewrite E1, E2, E3. Qed.

Lemma trimStart_empty (s : string) :
  trimStart s = "" <-> blank s = true.
Proof.
  induction s as [s H0 | a r E1 IH | a b r E1 E2 IH | a b c r E1 E2 E3 IH]
    using whiteSpace_ind.
  - destruct (width_zero s H0) as [-> Hb]. split; [now intros -> | exact Hb].
  - destruct (step1 a r E1) as (-> & -> & _). exact IH.
  - destruct (step2 a b r E1 E2) as (-> & -> & _). exact IH.
  - destruct (step3 a b c r E1 E2 E3) as (-> & -> & _). exact IH.
Qed.

Lemma trimEnd_empty (s : string) :
  trimEnd s = "" <-> blank s = true.
Proof.
  destruct s as [|c s]; cbn [trimEnd]; [now split|].
  destruct (blank (String c s)); split; try reflexivity; discriminate.
Qed.

Lemma blank_trimStart (s : string) :
  blank (trimStart s) = blank s.
Proof.
  induction s as [s H0 | a r E1 IH | a b r E1 E2 IH | a b c r E1 E2 E3 IH]
    using whiteSpace_ind.
  - now destruct (width_zero s H0) as [-> _].
  - destruct (step1 a r E1) as (-> & -> & _). exact IH.
  - destruct (step2 a b r E1 E2) as (-> & -> & _). exact IH.
  - destruct (step3 a b c r E1 E2 E3) as (-> & -> & _). exact IH.
Qed.

(** [trim] leaves nothing exactly of the strings made of white space. *)
Lemma trim_empty (s : string) :
  trim s = "" <-> blank s = true.
Proof.
  unfold trim. now rewrite trimEnd_empty, blank_trimStart.
Qed.

Lemma truthy_trim (s : string) :
  truthy (trim s) = negb (blank s).
Proof.
  unfold truthy. destruct (blank s) eqn:E; simpl.
  - apply trim_empty in E. now rewrite E.
  - destruct (String.eqb_spec (trim s) ""); [|reflexivity].
    apply trim_empty in e. congruence.
Qed.

(** Every white-space character of the language, alone, is blank:
    U+0009 to U+000D, U+0020, U+00A0, U+1680, U+2000 to U+200A, U+2028,
    U+2029, U+202F, U+205F, U+3000 and U+FEFF. *)
Example every_white_space_is_blank :
  forallb blank
    ([ utf8 [9]; utf8 [10]; utf8 [11]; utf8 [12]; utf8 [13]; utf8 [32];
       utf8 [194; 160]; utf8 [225; 154; 128] ]
     ++ map (fun z => utf8 [226; 128; z]) (seq 128 11)
     ++ [ utf8 [226; 128; 168]; utf8 [226; 128; 169]; utf8 [226; 128; 175];
          utf8 [226; 129; 159]; utf8 [227; 128; 128]; utf8 [239; 187; 191] ])%list
  = true.
Proof. reflexivity. Qed.

(** Characters that look like white space and are none for [trim]:
    U+0085 NEXT LINE, U+180E, U+200B ZERO WIDTH SPACE, U+2060. *)
Example not_white_space :
  forallb (fun s => String.eqb (trim s) s)
    [ utf8 [194; 133]; utf8 [225; 160; 142]; utf8 [226; 128; 139];
      utf8 [226; 129; 160] ]
  = true.
Proof. reflexivity. Qed.

Example trim_no_break_space :
  trim (utf8 [194; 160]) = ""
  /\ trim (utf8 [227; 128; 128; 194; 160] ++ "caf" ++ utf8 [195; 169; 32; 226; 128; 168])
     = "caf" ++ utf8 [195; 169].
Proof. split; reflexivity. Qed.

End StringFacts.

(* ===================================================================== *)
(** ** The error classifier *)
(* ===================================================================== *)

Section Classifier.
Import Js.

Lemma find_first {A : Type} (f : A -> bool) (before : list A) (x : A) (after : list A) :
  (forall y, In y before -> f y = false) ->
  f x = true ->
  find f (before ++ x :: after)%list = Some x.
Proof.
  induction before as [|y before IH]; simpl; intros Hb Hx.
  - now rewrite Hx.
  - rewrite (Hb y (or_introl eq_refl)). apply IH; auto.
Qed.

(** The nested conditionals of the source compute the first match of the
    table. *)
Lemma parseErrorMessage_classify (detail : string) :
  Api.parseErrorMessage detail = Reference.classify detail.
Proof.
  unfold Api.parseErrorMessage, Reference.classify, Reference.rules, Reference.matches.
  cbn [find existsb Reference.triggers Reference.result].
  rewrite !orb_false_r.
  destruct (includes detail "insufficient_quota"), (includes detail "quota"),
    (includes detail "OPENAI_API_KEY"), (includes detail "api key"),
    (includes detail "401"), (includes detail "unauthorized"),
    (includes detail "Invalid API key"), (includes detail "429"),
    (includes detail "rate limit"); reflexivity.
Qed.

Example classify_quota_first :
  Api.parseErrorMessage "Error: quota exceeded, insufficient_quota" = Api.quota_message.
Proof. reflexivity. Qed.

Example classify_passthrough :
  Api.parseErrorMessage "random backend failure xyz" = "random backend failure xyz".
Proof. reflexivity. Qed.

Example classify_is_case_sensitive :
  Api.parseErrorMessage "Quota exceeded; Rate Limit; Unauthorized"
  = "Quota exceeded; Rate Limit; Unauthorized".
Proof. reflexivity. Qed.

(** C2.  [parseErrorMessage] equals the ordered-rule reference
    [Reference.classify] on every detail string; hence it returns the
    fixed message of the first row of the table one of whose substrings
    occurs in the detail (whatever later rows match as well), it returns
    the detail unchanged when no row matches, and a detail that contains
    both [quota] and [429] gets the quota message. *)
Theorem parseErrorMessage_ordered_rules (detail : string) :
  Api.parseErrorMessage detail = Reference.classify detail
  /\ (forall before r after,
        Reference.rules = (before ++ r :: after)%list ->
        (forall r', In r' before -> Reference.matches detail r' = false) ->
        Reference.matches detail r = true ->
        Api.parseErrorMessage detail = Reference.result r)
  /\ ((forall r, In r Reference.rules -> Reference.matches detail r = false) ->
      Api.parseErrorMessage detail = detail)
  /\ (includes detail "quota" = true -> includes detail "429" = true ->
      Api.parseErrorMessage detail = Api.quota_message).
Proof.
  split; [apply parseErrorMessage_classify|].
  split; [|split].
  - intros before r after Hrules Hbefore Hr.
    rewrite parseErrorMessage_classify. unfold Reference.classify.
    now rewrite Hrules, (find_first _ before r after Hbefore Hr).
  - intros Hnone. rewrite parseErrorMessage_classify. unfold Reference.classify.
    destruct (find (Reference.matches detail) Reference.rules) as [r|] eqn:E;
      [|reflexivity].
    apply find_some in E as [Hin Hm]. rewrite (Hnone r Hin) in Hm. discriminate.
  - intros Hq _. unfold Api.parseErrorMessage.
    now rewrite Hq, orb_true_r.
Qed.

Lemma parseErrorMessage_ordered_rules_witness :
  includes "429 Too Many Requests: quota exhausted" "quota" = true
  /\ includes "429 Too Many Requests: quota exhausted" "429" = true
  /\ Api.parseErrorMessage "429 Too Many Requests: quota exhausted" = Api.quota_message.
Proof.
  split; [reflexivity|]. split; [reflexivity|].
  destruct (parseErrorMessage_ordered_rules "429 Too Many Requests: quota exhausted")
    as (_ & _ & _ & H).
  apply H; reflexivity.
Defined.

(** C9.  The classifier is idempotent: classifying a classified message
    changes nothing.  The quota message matches rule 1 again, the
    API-key message matches rule 2 again, the credential and rate-limit
    messages match no rule and pass through, and a detail that matched
    no rule is returned as it is. *)
Theorem parseErrorMessage_idempotent :
  (forall detail : string,
     Api.parseErrorMessage (Api.parseErrorMessage detail) = Api.parseErrorMessage detail)
  /\ find (Reference.matches Api.quota_message) Reference.rules
     = Some {| Reference.triggers := ["insufficient_quota"; "quota"];
               Reference.result := Api.quota_message |}
  /\ find (Reference.matches Api.api_key_message) Reference.rules
     = Some {| Reference.triggers := ["OPENAI_API_KEY"; "api key"];
               Reference.result := Api.api_key_message |}
  /\ find (Reference.matches Api.invalid_key_message) Reference.rules = None
  /\ find (Reference.matches Api.rate_limit_message) Reference.rules = None.
Proof.
  split; [|repeat split; vm_compute; reflexivity].
  intros detail.
  unfold Api.parseErrorMessage at 2 3.
  destruct (includes detail "insufficient_quota" || includes detail "quota") eqn:H1;
    [reflexivity|].
  destruct (includes detail "OPENAI_API_KEY" || includes detail "api key") eqn:H2;
    [reflexivity|].
  destruct (includes detail "401" || includes detail "unauthorized"
            || includes detail "Invalid API key") eqn:H3; [reflexivity|].
  destruct (includes detail "429" || includes detail "rate limit") eqn:H4;
    [reflexivity|].
  unfold Api.parseErrorMessage. now rewrite H1, H2, H3, H4.
Qed.

End Classifier.

(* ===================================================================== *)
(** ** The API client *)
(* ===================================================================== *)

Section ApiClient.
Import Js Notions.

(** *** Base address *)

Example getApiBaseUrl_vercel :
  Api.getApiBaseUrl {| Api.NEXT_PUBLIC_API_URL := None;
                       Api.hostname := Some "coach.vercel.app" |} = "".
Proof. reflexivity. Qed.

Example getApiBaseUrl_override :
  Api.getApiBaseUrl {| Api.NEXT_PUBLIC_API_URL := Some "https://api.example.org";
                       Api.hostname := Some "localhost" |} = "https://api.example.org".
Proof. reflexivity. Qed.

(** An override that is set to the empty string is not what
    [getApiBaseUrl] returns on a local browser: the test of the override
    is a truthiness test, so the resolution goes on to the host name. *)
Lemma getApiBaseUrl_empty_override :
  let rt := {| Api.NEXT_PUBLIC_API_URL := Some ""; Api.hostname := Some "localhost" |} in
  Api.NEXT_PUBLIC_API_URL rt = Some ""
  /\ Api.getApiBaseUrl rt = "http://localhost:8000"
  /\ Api.getApiBaseUrl rt <> "".
Proof. repeat split. discriminate. Qed.

(** C7 (amended).  Precedence of the base-address resolution: an
    override that is set to a non-empty value is returned; with the
    override unset or empty, a browser whose host name is neither
    [localhost] nor [127.0.0.1] gets the empty base (same-origin relative
    path), a browser on one of these two host names gets
    [http://localhost:8000], and outside a browser the result is
    [http://localhost:8000]. *)
Theorem getApiBaseUrl_precedence (rt : Api.Runtime) :
  (forall url, Api.NEXT_PUBLIC_API_URL rt = Some url -> url <> "" ->
     Api.getApiBaseUrl rt = url)
  /\ (Api.NEXT_PUBLIC_API_URL rt = None \/ Api.NEXT_PUBLIC_API_URL rt = Some "" ->
      (forall h, Api.hostname rt = Some h -> h <> "localhost" -> h <> "127.0.0.1" ->
         Api.getApiBaseUrl rt = "")
      /\ (forall h, Api.hostname rt = Some h -> h = "localhost" \/ h = "127.0.0.1" ->
            Api.getApiBaseUrl rt = "http://localhost:8000")
      /\ (Api.hostname rt = None -> Api.getApiBaseUrl rt = "http://localhost:8000")).
Proof.
  unfold Api.getApiBaseUrl. split.
  - intros url -> Hne. unfold truthy.
    now destruct (String.eqb_spec url "").
  - intros Hunset.
    assert (Hctx : match Api.NEXT_PUBLIC_API_URL rt with
                   | Some url => if truthy url then url
                                 else Api.fromContext (Api.hostname rt)
                   | None => Api.fromContext (Api.hostname rt)
                   end = Api.fromContext (Api.hostname rt))
      by (destruct Hunset as [-> | ->]; reflexivity).
    rewrite Hctx. unfold Api.fromContext. repeat split.
    + intros h -> H1 H2.
      apply String.eqb_neq in H1, H2. now rewrite H1, H2.
    + intros h -> [-> | ->]; reflexivity.
    + now intros ->.
Qed.

Lemma getApiBaseUrl_precedence_witness :
  Api.getApiBaseUrl {| Api.NEXT_PUBLIC_API_URL := Some "https://coach-api.example.org";
                       Api.hostname := Some "localhost" |}
  = "https://coach-api.example.org"
  /\ Api.getApiBaseUrl {| Api.NEXT_PUBLIC_API_URL := None;
                          Api.hostname := Some "coach.vercel.app" |} = "".
Proof.
  split.
  - apply (proj1 (getApiBaseUrl_precedence _) "https://coach-api.example.org");
      [reflexivity | discriminate].
  - apply (proj1 (proj2 (getApiBaseUrl_precedence
             {| Api.NEXT_PUBLIC_API_URL := None;
                Api.hostname := Some "coach.vercel.app" |}) (or_introl eq_refl))
             "coach.vercel.app"); [reflexivity | discriminate | discriminate].
Defined.

(** *** Successful responses *)

(** C8.  When the response is ok and its body parses, [sendMessage]
    is fulfilled with the parsed payload itself; the [reply] field is
    not inspected, so a payload whose reply is the empty string is
    returned as a success like any other. *)
Theorem sendMessage_returns_payload (rt : Api.Runtime) (fetch : Api.Fetch)
    (message : string) (status : nat) (data : Api.ChatResponse) :
  fetch (Api.API_BASE_URL rt ++ "/api/chat") message
    = Fulfilled (Api.OkResponse status (Fulfilled data)) ->
  Api.sendMessage rt fetch message = Fulfilled data.
Proof.
  intros H. unfold Api.sendMessage, Api.sendMessage_try. now rewrite H.
Qed.

Lemma sendMessage_returns_payload_witness :
  Api.sendMessage
    {| Api.NEXT_PUBLIC_API_URL := None; Api.hostname := Some "localhost" |}
    (fun _ _ => Fulfilled (Api.OkResponse 200 (Fulfilled {| Api.reply := "" |})))
    "hello"
  = Fulfilled {| Api.reply := "" |}.
Proof.
  apply (sendMessage_returns_payload _ _ _ 200). reflexivity.
Defined.

(** *** Failed responses *)

(** A needle is not found in a status text when one of its characters
    occurs neither in the fixed words nor among the digits. *)
Ltac absent_by c :=
  apply (includes_absent _ _ c);
  [ reflexivity
  | rewrite occurs_app, occurs_show by reflexivity; reflexivity ].

Ltac absent :=
  first [ absent_by "q"%char | absent_by "o"%char | absent_by "k"%char
        | absent_by "n"%char | absent_by "m"%char | absent_by "_"%char
        | absent_by "c"%char ].

Lemma http_error_classified (status : nat) :
  Api.parseErrorMessage ("HTTP error! status: " ++ show status)
  = statusText "HTTP error! status: " status.
Proof.
  unfold Api.parseErrorMessage, statusText.
  replace (includes ("HTTP error! status: " ++ show status) "insufficient_quota")
    with false by (symmetry; absent).
  replace (includes ("HTTP error! status: " ++ show status) "quota")
    with false by (symmetry; absent).
  replace (includes ("HTTP error! status: " ++ show status) "OPENAI_API_KEY")
    with false by (symmetry; absent).
  replace (includes ("HTTP error! status: " ++ show status) "api key")
    with false by (symmetry; absent).
  replace (includes ("HTTP error! status: " ++ show status) "unauthorized")
    with false by (symmetry; absent).
  replace (includes ("HTTP error! status: " ++ show status) "Invalid API key")
    with false by (symmetry; absent).
  replace (includes ("HTTP error! status: " ++ show status) "rate limit")
    with false by (symmetry; absent).
  rewrite !(includes_skip "HTTP error! status: " (show status)) by reflexivity.
  cbn [orb]. rewrite !orb_false_r. reflexivity.
Qed.

Lemma request_failed_classified (status : nat) :
  Api.parseErrorMessage ("Request failed with status " ++ show status)
  = statusText "Request failed with status " status.
Proof.
  unfold Api.parseErrorMessage, statusText.
  replace (includes ("Request failed with status " ++ show status) "insufficient_quota")
    with false by (symmetry; absent).
  replace (includes ("Request failed with status " ++ show status) "quota")
    with false by (symmetry; absent).
  replace (includes ("Request failed with status " ++ show status) "OPENAI_API_KEY")
    with false by (symmetry; absent).
  replace (includes ("Request failed with status " ++ show status) "api key")
    with false by (symmetry; absent).
  replace (includes ("Request failed with status " ++ show status) "unauthorized")
    with false by (symmetry; absent).
  replace (includes ("Request failed with status " ++ show status) "Invalid API key")
    with false by (symmetry; absent).
  replace (includes ("Request failed with status " ++ show status) "rate limit")
    with false by (symmetry; absent).
  rewrite !(includes_skip "Request failed with status " (show status)) by reflexivity.
  cbn [orb]. rewrite !orb_false_r. reflexivity.
Qed.

(** No status text mentions [fetch]. *)
Lemma statusText_no_fetch (words : string) (status : nat) :
  occurs "c" words = false ->
  includes (statusText words status) "fetch" = false.
Proof.
  intros Hw. unfold statusText.
  destruct (includes (show status) "401"); [reflexivity|].
  destruct (includes (show status) "429"); [reflexivity|].
  apply (includes_absent _ _ "c"); [reflexivity|].
  now rewrite occurs_app, Hw, occurs_show.
Qed.

(** [Failed to fetch] contains [fetch]: the second test of the [catch]
    block never decides. *)
Lemma includes_trans (s m n : string) :
  includes s m = true -> includes m n = true -> includes s n = true.
Proof.
  rewrite !includes_spec. intros [a [b ->]] [a' [b' ->]].
  exists (a ++ a'), (b' ++ b).
  induction a as [|c a IH]; simpl.
  - induction a' as [|c a' IH']; simpl.
    + induction n as [|c n IHn]; simpl; [reflexivity | now rewrite IHn].
    + now rewrite IH'.
  - now rewrite IH.
Qed.

Lemma catch_test (message : string) :
  includes message "fetch" || includes message "Failed to fetch"
  = includes message "fetch".
Proof.
  destruct (includes message "fetch") eqn:E; [reflexivity|]. simpl.
  destruct (includes message "Failed to fetch") eqn:F; [|reflexivity].
  rewrite (includes_trans _ _ "fetch" F eq_refl) in E. discriminate.
Qed.

(** What [sendMessage] does with a response that is not ok. *)
Lemma sendMessage_failed (rt : Api.Runtime) (fetch : Api.Fetch)
    (message : string) (status : nat) (json : Promise Api.ChatError)
    (errorData : Api.ChatError) :
  fetch (Api.API_BASE_URL rt ++ "/api/chat") message
    = Fulfilled (Api.FailedResponse status json) ->
  Api.errorDataOf status json = Fulfilled errorData ->
  Api.sendMessage rt fetch message
  = let classified := Api.parseErrorMessage (Api.errorDetailOf status errorData) in
    if includes classified "fetch"
    then Rejected (ErrorObject Api.connectivity_message)
    else Rejected (ErrorObject classified).
Proof.
  intros Hfetch Hdata. unfold Api.sendMessage, Api.sendMessage_try.
  rewrite Hfetch. cbn [await]. rewrite Hdata. cbn [await catch throw_Error].
  unfold Api.sendMessage_catch. rewrite catch_test. reflexivity.
Qed.

(** Among the statuses of up to three digits, only 401 has [401] among
    its digits and only 429 has [429]. *)
Lemma status_digits (status : nat) :
  status < 1000 ->
  includes (show status) "401" = (status =? 401)%nat
  /\ includes (show status) "429" = (status =? 429)%nat.
Proof.
  intros Hlt.
  assert (Hall : forallb (fun n => Bool.eqb (includes (show n) "401") (n =? 401)%nat
                                   && Bool.eqb (includes (show n) "429") (n =? 429)%nat)
                   (seq 0 1000) = true) by (vm_compute; reflexivity).
  rewrite forallb_forall in Hall.
  specialize (Hall status (proj2 (in_seq 1000 0 status) (conj (Nat.le_0_l _) Hlt))).
  apply andb_true_iff in Hall as [H1 H2].
  apply Bool.eqb_prop in H1, H2. now split.
Qed.

Example unparsable_500 :
  Api.sendMessage
    {| Api.NEXT_PUBLIC_API_URL := None; Api.hostname := Some "localhost" |}
    (fun _ _ => Fulfilled (Api.FailedResponse 500
                  (Rejected (ErrorObject "Unexpected token < in JSON at position 0"))))
    "hello"
  = Rejected (ErrorObject "HTTP error! status: 500").
Proof. reflexivity. Qed.

(** A 401 whose body is not JSON: the synthesized detail
    [HTTP error! status: 401] contains [401], rule 3 matches it, and the
    message that reaches the controller is the invalid-credential
    message, not the synthesized string. *)
Lemma unparsable_401_is_classified :
  let response :=
    Api.FailedResponse 401
      (Rejected (ErrorObject "Unexpected token < in JSON at position 0")) in
  Api.conforms response = true
  /\ Api.sendMessage
       {| Api.NEXT_PUBLIC_API_URL := None; Api.hostname := Some "localhost" |}
       (fun _ _ => Fulfilled response) "hello"
     = Rejected (ErrorObject Api.invalid_key_message)
  /\ Api.invalid_key_message <> "HTTP error! status: 401".
Proof. repeat split. discriminate. Qed.

(** C3 (amended).  When the response is not ok and its body cannot be
    parsed, the detail handed to the classifier is exactly
    [HTTP error! status: <code>].  [sendMessage] then fails with that
    exact string as its message for every status whose digits contain
    neither [401] nor [429]; it fails with the invalid-credential message
    when they contain [401], and with the rate-limit message when they
    contain [429] and not [401]. *)
Theorem sendMessage_unparsable_body (rt : Api.Runtime) (fetch : Api.Fetch)
    (message : string) (status : nat) (reason : Thrown) :
  fetch (Api.API_BASE_URL rt ++ "/api/chat") message
    = Fulfilled (Api.FailedResponse status (Rejected reason)) ->
  (exists errorData,
     Api.errorDataOf status (Rejected reason) = Fulfilled errorData
     /\ Api.detail errorData = Some ("HTTP error! status: " ++ show status)
     /\ Api.errorDetailOf status errorData = "HTTP error! status: " ++ show status)
  /\ (includes (show status) "401" = false ->
      includes (show status) "429" = false ->
      Api.parseErrorMessage ("HTTP error! status: " ++ show status)
        = "HTTP error! status: " ++ show status
      /\ Api.sendMessage rt fetch message
         = Rejected (ErrorObject ("HTTP error! status: " ++ show status)))
  /\ (includes (show status) "401" = true ->
      Api.sendMessage rt fetch message = Rejected (ErrorObject Api.invalid_key_message))
  /\ (includes (show status) "401" = false ->
      includes (show status) "429" = true ->
      Api.sendMessage rt fetch message = Rejected (ErrorObject Api.rate_limit_message))
  /\ (status < 1000 -> status <> 401 -> status <> 429 ->
      Api.sendMessage rt fetch message
      = Rejected (ErrorObject ("HTTP error! status: " ++ show status))).
Proof.
  intros Hfetch.
  assert (Hsend : Api.sendMessage rt fetch message
                  = Rejected (ErrorObject (statusText "HTTP error! status: " status))).
  { rewrite (sendMessage_failed rt fetch message status (Rejected reason)
               {| Api.detail := Some ("HTTP error! status: " ++ show status) |}
               Hfetch eq_refl).
    cbn zeta.
    replace (Api.errorDetailOf status
               {| Api.detail := Some ("HTTP error! status: " ++ show status) |})
      with ("HTTP error! status: " ++ show status) by reflexivity.
    rewrite http_error_classified.
    now rewrite statusText_no_fetch. }
  split; [|split; [|split; [|split]]].
  - eexists. split; [reflexivity|]. split; reflexivity.
  - intros H401 H429. rewrite http_error_classified, Hsend.
    unfold statusText. now rewrite H401, H429.
  - intros H401. rewrite Hsend. unfold statusText. now rewrite H401.
  - intros H401 H429. rewrite Hsend. unfold statusText. now rewrite H401, H429.
  - intros Hlt H401 H429. rewrite Hsend. unfold statusText.
    destruct (status_digits status Hlt) as [-> ->].
    apply Nat.eqb_neq in H401, H429. now rewrite H401, H429.
Qed.

Lemma sendMessage_unparsable_body_witness :
  Api.sendMessage
    {| Api.NEXT_PUBLIC_API_URL := None; Api.hostname := Some "localhost" |}
    (fun _ _ => Fulfilled (Api.FailedResponse 503 (Rejected (ErrorObject "Unexpected end of JSON input"))))
    "hello"
  = Rejected (ErrorObject ("HTTP error! status: " ++ show 503)).
Proof.
  apply (sendMessage_unparsable_body
           {| Api.NEXT_PUBLIC_API_URL := None; Api.hostname := Some "localhost" |}
           (fun _ _ => Fulfilled (Api.FailedResponse 503
                         (Rejected (ErrorObject "Unexpected end of JSON input"))))
           "hello" 503 (ErrorObject "Unexpected end of JSON input") eq_refl);
    [ lia | discriminate | discriminate ].
Defined.

(** C10.  When the response is not ok and its body parses but carries
    no detail, or the empty string as detail, the text handed to the
    classifier is [Request failed with status <code>] and not the
    synthesized [HTTP error! status: <code>]; the synthesized text
    reaches the classifier only when parsing the body fails (or when the
    body's own detail already is that text). *)
Theorem errorDetail_without_detail (status : nat) (errorData : Api.ChatError) :
  Api.detail errorData = None \/ Api.detail errorData = Some "" ->
  Api.errorDataOf status (Fulfilled errorData) = Fulfilled errorData
  /\ Api.errorDetailOf status errorData = "Request failed with status " ++ show status
  /\ Api.errorDetailOf status errorData <> "HTTP error! status: " ++ show status
  /\ (forall rt fetch message,
        fetch (Api.API_BASE_URL rt ++ "/api/chat") message
          = Fulfilled (Api.FailedResponse status (Fulfilled errorData)) ->
        Api.sendMessage_try fetch (Api.API_BASE_URL rt ++ "/api/chat") message
        = Rejected (ErrorObject
            (Api.parseErrorMessage ("Request failed with status " ++ show status))))
  /\ (forall json parsed,
        Api.errorDataOf status json = Fulfilled parsed ->
        Api.errorDetailOf status parsed = "HTTP error! status: " ++ show status ->
        (exists reason, json = Rejected reason)
        \/ json = Fulfilled parsed
            /\ Api.detail parsed = Some ("HTTP error! status: " ++ show status)).
Proof.
  intros Hdetail.
  assert (Harg : Api.errorDetailOf status errorData
                 = "Request failed with status " ++ show status)
    by (unfold Api.errorDetailOf; destruct Hdetail as [-> | ->]; reflexivity).
  split; [reflexivity|]. split; [exact Harg|]. split; [|split].
  - rewrite Harg. discriminate.
  - intros rt fetch message Hfetch. unfold Api.sendMessage_try.
    rewrite Hfetch. cbn [await Api.errorDataOf catch]. now rewrite Harg.
  - intros [parsed'|reason] parsed Hjson Harg'.
    + right. cbn in Hjson. injection Hjson as ->. split; [reflexivity|].
      unfold Api.errorDetailOf, or_else in Harg'.
      destruct (Api.detail parsed) as [d|].
      * destruct (truthy d); [now rewrite Harg' | discriminate].
      * discriminate.
    + left. now exists reason.
Qed.

Lemma errorDetail_without_detail_witness :
  Api.errorDetailOf 500 {| Api.detail := None |}
    = "Request failed with status " ++ show 500
  /\ Api.errorDetailOf 502 {| Api.detail := Some "" |}
    = "Request failed with status " ++ show 502.
Proof.
  split.
  - apply (errorDetail_without_detail 500 {| Api.detail := None |}).
    left. reflexivity.
  - apply (errorDetail_without_detail 502 {| Api.detail := Some "" |}).
    right. reflexivity.
Defined.

(** *** Transport failures *)

Example connection_refused :
  Api.sendMessage
    {| Api.NEXT_PUBLIC_API_URL := None; Api.hostname := Some "localhost" |}
    (fun _ _ => Rejected (ErrorObject "Failed to fetch")) "hello"
  = Rejected (ErrorObject Api.connectivity_message).
Proof. reflexivity. Qed.

(** C4.  The code does not tell connectivity failures from the failures
    of the application.  Its [catch] block, commented "Network errors
    or other fetch errors", looks for the word [fetch] in the message of
    whatever was thrown inside the [try] block, and the [throw] of the
    classified error of a failed response is inside that block.  So a
    backend that answers 500 with a detail that mentions [fetch] has its
    classified error replaced by the connectivity message, and a
    transport failure whose message lacks the word (such as
    [Load failed]) leaves [sendMessage] as it came, not interpreted. *)
Lemma connectivity_not_told_apart :
  let rt := {| Api.NEXT_PUBLIC_API_URL := None; Api.hostname := Some "localhost" |} in
  let detail := "Failed to fetch user profile from the database" in
  let response := Api.FailedResponse 500 (Fulfilled {| Api.detail := Some detail |}) in
  (Api.conforms response = true
   /\ Api.parseErrorMessage detail = detail
   /\ Api.sendMessage_try (fun _ _ => Fulfilled response)
        (Api.API_BASE_URL rt ++ "/api/chat") "hello"
      = Rejected (ErrorObject detail)
   /\ Api.sendMessage rt (fun _ _ => Fulfilled response) "hello"
      = Rejected (ErrorObject Api.connectivity_message))
  /\ (Api.sendMessage rt (fun _ _ => Rejected (ErrorObject "Load failed")) "hello"
      = Rejected (ErrorObject "Load failed")
      /\ "Load failed" <> Api.connectivity_message).
Proof. repeat split. discriminate. Qed.

(** What the [catch] block does achieve.  A transport failure whose
    error message contains [fetch] makes [sendMessage] fail with the
    fixed connectivity message.  A failed response whose classified message does not
    contain [fetch] reaches the controller with that classified message
    and is not replaced; this covers every response classified into one
    of the four fixed categories and every status text the client
    builds itself.  Whatever happens, [sendMessage] rejects with an
    [Error], never with another kind of value. *)
Theorem sendMessage_connectivity (rt : Api.Runtime) (fetch : Api.Fetch)
    (message : string) :
  (forall text,
     fetch (Api.API_BASE_URL rt ++ "/api/chat") message = Rejected (ErrorObject text) ->
     includes text "fetch" = true ->
     Api.sendMessage rt fetch message = Rejected (ErrorObject Api.connectivity_message))
  /\ (forall status json errorData,
        fetch (Api.API_BASE_URL rt ++ "/api/chat") message
          = Fulfilled (Api.FailedResponse status json) ->
        Api.errorDataOf status json = Fulfilled errorData ->
        let classified := Api.parseErrorMessage (Api.errorDetailOf status errorData) in
        (includes classified "fetch" = false ->
         Api.sendMessage rt fetch message = Rejected (ErrorObject classified))
        /\ (In classified [Api.quota_message; Api.api_key_message;
                           Api.invalid_key_message; Api.rate_limit_message;
                           "HTTP error! status: " ++ show status;
                           "Request failed with status " ++ show status] ->
            Api.sendMessage rt fetch message = Rejected (ErrorObject classified)))
  /\ Api.sendMessage rt fetch message <> Rejected OtherValue.
Proof.
  split; [|split].
  - intros text Hfetch Htext. unfold Api.sendMessage, Api.sendMessage_try.
    rewrite Hfetch. cbn [await catch Api.sendMessage_catch].
    now rewrite catch_test, Htext.
  - intros status json errorData Hfetch Hdata classified.
    pose proof (sendMessage_failed rt fetch message status json errorData Hfetch Hdata)
      as Hsend. cbn zeta in Hsend. fold classified in Hsend.
    assert (Hkeep : includes classified "fetch" = false ->
                    Api.sendMessage rt fetch message = Rejected (ErrorObject classified))
      by (intros Hno; now rewrite Hsend, Hno).
    split; [exact Hkeep|].
    intros Hin. apply Hkeep.
    repeat (destruct Hin as [<- | Hin]); try reflexivity; try contradiction.
    + apply (includes_absent _ _ "c"); [reflexivity|].
      now rewrite occurs_app, occurs_show.
    + apply (includes_absent _ _ "c"); [reflexivity|].
      now rewrite occurs_app, occurs_show.
  - unfold Api.sendMessage, Api.sendMessage_try.
    destruct (fetch (Api.API_BASE_URL rt ++ "/api/chat") message)
      as [[status json | status json] | [text|]]; cbn [await catch].
    + destruct json as [data | [text|]]; cbn [await catch Api.sendMessage_catch];
        try discriminate.
      destruct (includes text "fetch" || includes text "Failed to fetch");
        discriminate.
    + destruct (Api.errorDataOf status json) as [errorData | reason] eqn:E.
      * cbn [await catch throw_Error Api.sendMessage_catch].
        destruct (includes _ "fetch" || includes _ "Failed to fetch"); discriminate.
      * destruct json; discriminate.
    + cbn [Api.sendMessage_catch].
      destruct (includes text "fetch" || includes text "Failed to fetch"); discriminate.
    + discriminate.
Qed.

Lemma sendMessage_connectivity_witness :
  Api.sendMessage
    {| Api.NEXT_PUBLIC_API_URL := None; Api.hostname := Some "localhost" |}
    (fun _ _ => Rejected (ErrorObject "NetworkError when attempting to fetch resource."))
    "hello"
  = Rejected (ErrorObject Api.connectivity_message)
  /\ Api.sendMessage
       {| Api.NEXT_PUBLIC_API_URL := None; Api.hostname := Some "localhost" |}
       (fun _ _ => Fulfilled (Api.FailedResponse 429
                     (Fulfilled {| Api.detail := Some "rate limit exceeded" |})))
       "hello"
     = Rejected (ErrorObject Api.rate_limit_message).
Proof.
  split.
  - apply (proj1 (sendMessage_connectivity _ _ _)
             "NetworkError when attempting to fetch resource."); reflexivity.
  - exact (proj1 (proj1 (proj2 (sendMessage_connectivity
             {| Api.NEXT_PUBLIC_API_URL := None; Api.hostname := Some "localhost" |}
             (fun _ _ => Fulfilled (Api.FailedResponse 429
                           (Fulfilled {| Api.detail := Some "rate limit exceeded" |})))
             "hello"))
             429 (Fulfilled {| Api.detail := Some "rate limit exceeded" |})
             {| Api.detail := Some "rate limit exceeded" |} eq_refl eq_refl)
             eq_refl).
Defined.

End ApiClient.

(* ===================================================================== *)
(** ** The conversation controller *)
(* ===================================================================== *)

Section Controller.
Import Js Notions.

Lemma lastRole_snoc (log : list Page.Message) (m : Page.Message) :
  Page.lastRole (log ++ [m])%list = Some (Page.role m).
Proof. unfold Page.lastRole. now rewrite rev_unit. Qed.

(** The guard of [handleSubmit] returns at once on a blank input and
    while a request is out. *)
Lemma dispatch_refused (now : Page.Date) (s : Page.State) :
  blank (Page.input s) = true \/ Page.isLoading s = true ->
  Page.handleSubmit_dispatch now s = (s, None).
Proof.
  intros H. unfold Page.handleSubmit_dispatch. rewrite truthy_trim, negb_involutive.
  destruct H as [-> | ->]; [reflexivity | now rewrite orb_true_r].
Qed.

(** Past the guard, the synchronous part of [handleSubmit]. *)
Lemma dispatch_accepted (now : Page.Date) (s : Page.State) :
  blank (Page.input s) = false -> Page.isLoading s = false ->
  Page.handleSubmit_dispatch now s
  = ({| Page.messages :=
          (Page.messages s
           ++ [ {| Page.role := Page.user; Page.content := trim (Page.input s);
                   Page.timestamp := now |} ])%list;
        Page.input := "";
        Page.isLoading := true;
        Page.error := None |},
     Some (trim (Page.input s))).
Proof.
  intros Hb Hl. unfold Page.handleSubmit_dispatch.
  rewrite truthy_trim, negb_involutive, Hb, Hl. reflexivity.
Qed.

(** The part of [handleSubmit] that runs once [sendMessage] has
    settled. *)
Lemma settle_state (now : Page.Date) (outcome : Promise Api.ChatResponse)
    (s : Page.State) :
  Page.handleSubmit_settle now outcome s
  = {| Page.messages :=
         (Page.messages s
          ++ [ {| Page.role := Page.assistant; Page.content := answerText outcome;
                  Page.timestamp := now |} ])%list;
       Page.input := Page.input s;
       Page.isLoading := false;
       Page.error := match outcome with
                     | Fulfilled _ => Page.error s
                     | Rejected err => Some (messageOf err)
                     end |}.
Proof. destruct outcome as [response | [text|]]; reflexivity. Qed.

Lemma coherent_start (now : Page.Date) : coherent (Page.start now).
Proof. right. repeat split. Qed.

Lemma coherent_step (rt : Api.Runtime) (ev : Page.Event) (p : Page.Session) :
  coherent p -> coherent (Page.step rt ev p).
Proof.
  intros Hp. destruct ev as [now | value | now answer]; cbn [Page.step].
  - destruct (blank (Page.input (Page.view p))) eqn:Hb.
    { now rewrite dispatch_refused by (now left). }
    destruct Hp as [(Hl & Hf & Hr) | (Hl & Hf & Hr)].
    { rewrite dispatch_refused by (now right). left. now repeat split. }
    rewrite (dispatch_accepted now _ Hb Hl). left. cbn. repeat split.
    + rewrite Hf. now eexists.
    + apply lastRole_snoc.
  - destruct Hp as [(Hl & Hf & Hr) | (Hl & Hf & Hr)]; [left | right];
      now repeat split.
  - destruct Hp as [(Hl & [message Hf] & Hr) | (Hl & Hf & Hr)].
    + rewrite Hf. right. rewrite settle_state. cbn. repeat split.
      apply lastRole_snoc.
    + rewrite Hf. right. now repeat split.
Qed.

(** Every session the page can reach is coherent. *)
Lemma coherent_run (rt : Api.Runtime) (events : list Page.Event) (p : Page.Session) :
  coherent p -> coherent (Page.run rt events p).
Proof.
  unfold Page.run. revert p.
  induction events as [|ev events IH]; intros p Hp; cbn [fold_left];
    [exact Hp|].
  apply IH. now apply coherent_step.
Qed.


(** *** Two conversations of the specification *)

Example conversation_reply :
  let rt := {| Api.NEXT_PUBLIC_API_URL := None; Api.hostname := Some "localhost" |} in
  let typed := Page.step rt (Page.Change "I'm stressed about exams") (Page.start 0) in
  let sent := Page.step rt (Page.Submit 1) typed in
  let answered :=
    Page.step rt
      (Page.Settle 2 (Fulfilled (Api.OkResponse 200
         (Fulfilled {| Api.reply := "Let's break that down together." |})))) sent in
  length (Page.messages (Page.view sent)) = 2
  /\ Page.isLoading (Page.view sent) = true
  /\ Page.inFlight sent = ["I'm stressed about exams"]
  /\ length (Page.messages (Page.view answered)) = 3
  /\ last (Page.messages (Page.view answered))
          {| Page.role := Page.user; Page.content := ""; Page.timestamp := 0 |}
     = {| Page.role := Page.assistant;
          Page.content := "Let's break that down together.";
          Page.timestamp := 2 |}
  /\ Page.isLoading (Page.view answered) = false
  /\ Page.error (Page.view answered) = None.
Proof. repeat split. Qed.

Example conversation_rate_limited :
  let rt := {| Api.NEXT_PUBLIC_API_URL := None; Api.hostname := Some "localhost" |} in
  let typed := Page.step rt (Page.Change "hello") (Page.start 0) in
  let sent := Page.step rt (Page.Submit 1) typed in
  let answered :=
    Page.step rt
      (Page.Settle 2 (Fulfilled (Api.FailedResponse 429
         (Fulfilled {| Api.detail := Some "rate limit exceeded" |})))) sent in
  length (Page.messages (Page.view answered)) = 3
  /\ last (Page.messages (Page.view answered))
          {| Page.role := Page.user; Page.content := ""; Page.timestamp := 0 |}
     = {| Page.role := Page.assistant;
          Page.content :=
            "Sorry, I encountered an error: Rate limit exceeded. Please wait a moment and try again.. Please try again.";
          Page.timestamp := 2 |}
  /\ Page.isLoading (Page.view answered) = false
  /\ Page.error (Page.view answered) = Some Api.rate_limit_message.
Proof. repeat split. Qed.

(** *** The guard *)

(** C6.  A submission whose input is empty or made of white space
    only, and a submission made while the Sending flag is up, change
    nothing: [handleSubmit] returns before its first state update, so
    the log, the input buffer, the flag and the error slot are the ones
    it found, and no call of [sendMessage] is made. *)
Theorem handleSubmit_noop (now : Page.Date) (s : Page.State) :
  blank (Page.input s) = true \/ Page.isLoading s = true ->
  Page.handleSubmit_dispatch now s = (s, None)
  /\ (forall send settled, Page.handleSubmit send now settled s = s)
  /\ (forall rt inFlight,
        Page.step rt (Page.Submit now) {| Page.view := s; Page.inFlight := inFlight |}
        = {| Page.view := s; Page.inFlight := inFlight |}).
Proof.
  intros H. pose proof (dispatch_refused now s H) as Hd.
  split; [exact Hd|]. split.
  - intros send settled. unfold Page.handleSubmit. now rewrite Hd.
  - intros rt inFlight. cbn [Page.step Page.view Page.inFlight]. now rewrite Hd.
Qed.

Lemma handleSubmit_noop_witness :
  let idle :=
    {| Page.messages := Page.messages (Page.initial 0);
       Page.input := "   "; Page.isLoading := false; Page.error := Some "old" |} in
  let sending :=
    {| Page.messages := Page.messages (Page.initial 0);
       Page.input := "again"; Page.isLoading := true; Page.error := None |} in
  let spaces :=
    {| Page.messages := Page.messages (Page.initial 0);
       Page.input := utf8 [194; 160; 227; 128; 128; 9];
       Page.isLoading := false; Page.error := None |} in
  Page.handleSubmit_dispatch 7 idle = (idle, None)
  /\ Page.handleSubmit_dispatch 7 sending = (sending, None)
  /\ Page.handleSubmit_dispatch 7 spaces = (spaces, None).
Proof.
  split; [|split].
  - apply handleSubmit_noop. left. reflexivity.
  - apply handleSubmit_noop. right. reflexivity.
  - apply handleSubmit_noop. left. reflexivity.
Defined.

(** *** One turn *)



(** *** The Sending flag *)

(** C5.  In every state the page reaches, the Sending flag is up
    exactly when a request is out, and at most one request is out.  An
    accepted submission raises the flag in the step that makes the
    request, the settling of the request lowers it on success and on
    failure alike, and a submission made while the flag is up is
    refused. *)
Theorem isLoading_spans_request :
  (forall (rt : Api.Runtime) (now : Page.Date) (events : list Page.Event),
     let p := Page.run rt events (Page.start now) in
     (Page.isLoading (Page.view p) = true <-> exists message, Page.inFlight p = [message])
     /\ (Page.isLoading (Page.view p) = false <-> Page.inFlight p = [])
     /\ length (Page.inFlight p) <= 1)
  /\ (forall now s s' message,
        Page.handleSubmit_dispatch now s = (s', Some message) ->
        Page.isLoading s = false /\ Page.isLoading s' = true)
  /\ (forall now outcome s,
        Page.isLoading (Page.handleSubmit_settle now outcome s) = false)
  /\ (forall now s,
        Page.isLoading s = true -> Page.handleSubmit_dispatch now s = (s, None)).
Proof.
  split; [|split; [|split]].
  - intros rt now events p.
    destruct (coherent_run rt events (Page.start now) (coherent_start now))
      as [(Hl & [message Hf] & _) | (Hl & Hf & _)]; fold p in Hl, Hf;
      rewrite Hl, Hf; cbn [length]; repeat split; try discriminate;
      try (intros [m Hm]; discriminate); auto.
    intros _. now exists message.
  - intros now s s' message Hd.
    destruct (Page.isLoading s) eqn:Hl.
    { rewrite dispatch_refused in Hd by (now right). discriminate. }
    destruct (blank (Page.input s)) eqn:Hb.
    { rewrite dispatch_refused in Hd by (now left). discriminate. }
    rewrite (dispatch_accepted now s Hb Hl) in Hd.
    injection Hd as <- _. split; reflexivity.
  - intros now outcome s. now rewrite settle_state.
  - intros now s Hl. apply dispatch_refused. now right.
Qed.

Lemma isLoading_spans_request_witness :
  let sending :=
    {| Page.messages := Page.messages (Page.initial 0);
       Page.input := "again"; Page.isLoading := true; Page.error := None |} in
  Page.handleSubmit_dispatch 7 sending = (sending, None).
Proof.
  intros sending.
  apply (proj2 (proj2 (proj2 isLoading_spans_request)) 7 sending). reflexivity.
Defined.

End Controller.

(* ===================================================================== *)
(** ** Trimming *)
(* ===================================================================== *)

Section Trimming.
Import Js Shapes.

Lemma trimStart_split (s : string) :
  exists a, s = a ++ trimStart s /\ blank a = true.
Proof.
  induction s as [s H0 | a r E1 [x [Hs Hx]] | a b r E1 E2 [x [Hs Hx]]
                 | a b c r E1 E2 E3 [x [Hs Hx]]] using whiteSpace_ind.
  - destruct (width_zero s H0) as [-> _]. now exists "".
  - exists (String a x). destruct (step1 a r E1) as (-> & _ & _).
    destruct (step1 a x E1) as (_ & -> & _). cbn [append]. now rewrite <- Hs.
  - exists (String a (String b x)). destruct (step2 a b r E1 E2) as (-> & _ & _).
    destruct (step2 a b x E1 E2) as (_ & -> & _). cbn [append]. now rewrite <- Hs.
  - exists (String a (String b (String c x))).
    destruct (step3 a b c r E1 E2 E3) as (-> & _ & _).
    destruct (step3 a b c x E1 E2 E3) as (_ & -> & _). cbn [append]. now rewrite <- Hs.
Qed.

Lemma trimEnd_split (s : string) :
  exists b, s = trimEnd s ++ b /\ blank b = true.
Proof.
  induction s as [|c s [b [Hs Hb]]]; cbn [trimEnd].
  - now exists "".
  - destruct (blank (String c s)) eqn:E.
    + now exists (String c s).
    + exists b. cbn [append]. now rewrite <- Hs.
Qed.

Lemma blank_app (x y : string) :
  blank x = true -> blank (x ++ y) = blank y.
Proof.
  induction x as [x H0 | a r E1 IH | a b r E1 E2 IH | a b c r E1 E2 E3 IH]
    using whiteSpace_ind.
  - intros Hb. now rewrite (proj2 (width_zero x H0) Hb).
  - cbn [append]. destruct (step1 a r E1) as (_ & -> & _).
    destruct (step1 a (r ++ y) E1) as (_ & -> & _). exact IH.
  - cbn [append]. destruct (step2 a b r E1 E2) as (_ & -> & _).
    destruct (step2 a b (r ++ y) E1 E2) as (_ & -> & _). exact IH.
  - cbn [append]. destruct (step3 a b c r E1 E2 E3) as (_ & -> & _).
    destruct (step3 a b c (r ++ y) E1 E2 E3) as (_ & -> & _). exact IH.
Qed.

Lemma width_app (t y : string) :
  whiteSpaceWidth t <> 0 -> whiteSpaceWidth (t ++ y) = whiteSpaceWidth t.
Proof.
  destruct t as [|a [|b [|c r]]]; cbn [whiteSpaceWidth append];
    [contradiction | | |];
    destruct (isWhiteSpace1 a); try reflexivity; try contradiction;
    destruct (isWhiteSpace2 a b); try reflexivity; try contradiction.
Qed.

Lemma trimStart_lead (s : string) :
  startsWithWhiteSpace (trimStart s) = false.
Proof.
  unfold startsWithWhiteSpace.
  induction s as [s H0 | a r E1 IH | a b r E1 E2 IH | a b c r E1 E2 E3 IH]
    using whiteSpace_ind.
  - destruct (width_zero s H0) as [-> _]. now rewrite H0.
  - destruct (step1 a r E1) as (-> & _ & _). exact IH.
  - destruct (step2 a b r E1 E2) as (-> & _ & _). exact IH.
  - destruct (step3 a b c r E1 E2 E3) as (-> & _ & _). exact IH.
Qed.

Lemma trimEnd_trail (s : string) :
  endsWithWhiteSpace (trimEnd s) = false.
Proof.
  induction s as [|c s IH]; cbn [trimEnd]; [reflexivity|].
  destruct (blank (String c s)) eqn:E; [reflexivity|].
  cbn [endsWithWhiteSpace]. rewrite IH, orb_false_r.
  destruct (blank (String c (trimEnd s))) eqn:B; [|reflexivity].
  destruct (trimEnd_split s) as [b [Hs Hb]].
  pose proof (blank_app (String c (trimEnd s)) b B) as Happ.
  cbn [append] in Happ. rewrite <- Hs, Hb in Happ. congruence.
Qed.

Lemma trimEnd_lead (s : string) :
  startsWithWhiteSpace s = false -> startsWithWhiteSpace (trimEnd s) = false.
Proof.
  unfold startsWithWhiteSpace. intros Hs.
  destruct (whiteSpaceWidth (trimEnd s) =? 0)%nat eqn:E; [reflexivity|].
  apply Nat.eqb_neq in E.
  destruct (trimEnd_split s) as [b [Hsplit _]].
  pose proof (width_app (trimEnd s) b E) as Hw. rewrite <- Hsplit in Hw.
  apply negb_false_iff, Nat.eqb_eq in Hs. congruence.
Qed.

Lemma trimStart_fixed (s : string) :
  startsWithWhiteSpace s = false -> trimStart s = s.
Proof.
  unfold startsWithWhiteSpace. intros Hs.
  apply negb_false_iff, Nat.eqb_eq in Hs. now apply width_zero.
Qed.

Lemma trimEnd_fixed (s : string) :
  endsWithWhiteSpace s = false -> trimEnd s = s.
Proof.
  induction s as [|c s IH]; [reflexivity|].
  cbn [endsWithWhiteSpace trimEnd]. intros H.
  apply orb_false_iff in H as [-> H]. now rewrite (IH H).
Qed.

(** What [trim] returns: the string without the white space around it. *)
Lemma trim_spec (s : string) :
  (exists a b, s = a ++ trim s ++ b /\ blank a = true /\ blank b = true)
  /\ startsWithWhiteSpace (trim s) = false
  /\ endsWithWhiteSpace (trim s) = false
  /\ trim (trim s) = trim s.
Proof.
  assert (Hlead : startsWithWhiteSpace (trim s) = false)
    by (apply trimEnd_lead, trimStart_lead).
  assert (Htrail : endsWithWhiteSpace (trim s) = false) by apply trimEnd_trail.
  split; [|split; [exact Hlead | split; [exact Htrail|]]].
  - destruct (trimStart_split s) as [a [Hs Ha]].
    destruct (trimEnd_split (trimStart s)) as [b [Ht Hb]].
    exists a, b. unfold trim. now rewrite <- Ht.
  - unfold trim at 1. rewrite (trimStart_fixed _ Hlead). now apply trimEnd_fixed.
Qed.

End Trimming.

(* ===================================================================== *)
(** ** More on the API client *)
(* ===================================================================== *)

Section ApiOutcomes.
Import Js Notions Shapes.

(** The classifier answers with its argument or with one of its four
    fixed messages. *)
Lemma parseErrorMessage_range (detail : string) :
  Api.parseErrorMessage detail = detail
  \/ In (Api.parseErrorMessage detail)
        [Api.quota_message; Api.api_key_message;
         Api.invalid_key_message; Api.rate_limit_message].
Proof.
  unfold Api.parseErrorMessage.
  destruct (includes detail "insufficient_quota" || includes detail "quota");
    [right; cbn; tauto|].
  destruct (includes detail "OPENAI_API_KEY" || includes detail "api key");
    [right; cbn; tauto|].
  destruct (includes detail "401" || includes detail "unauthorized"
            || includes detail "Invalid API key"); [right; cbn; tauto|].
  destruct (includes detail "429" || includes detail "rate limit");
    [right; cbn; tauto|].
  now left.
Qed.

(** X1.  The base address is relative exactly in a browser that is not on
    [localhost] or [127.0.0.1] and has no non-empty override; in every
    other context it is the non-empty override or
    [http://localhost:8000].  Outside a browser it is never relative. *)
Theorem getApiBaseUrl_relative (rt : Api.Runtime) :
  (Api.getApiBaseUrl rt = ""
   <-> (Api.NEXT_PUBLIC_API_URL rt = None \/ Api.NEXT_PUBLIC_API_URL rt = Some "")
       /\ exists h, Api.hostname rt = Some h /\ h <> "localhost" /\ h <> "127.0.0.1")
  /\ (Api.getApiBaseUrl rt = ""
      \/ Api.getApiBaseUrl rt = "http://localhost:8000"
      \/ Api.NEXT_PUBLIC_API_URL rt = Some (Api.getApiBaseUrl rt)).
Proof.
  destruct rt as [override host]. unfold Api.getApiBaseUrl.
  cbn [Api.NEXT_PUBLIC_API_URL Api.hostname].
  assert (Hctx : (Api.fromContext host = ""
                  <-> exists h, host = Some h /\ h <> "localhost" /\ h <> "127.0.0.1")
                 /\ (Api.fromContext host = ""
                     \/ Api.fromContext host = "http://localhost:8000")).
  { unfold Api.fromContext. destruct host as [h|].
    - destruct (String.eqb_spec h "localhost") as [-> | H1]; cbn [orb].
      + split; [|now right]. split; [discriminate|].
        intros [h [Hh [Hne _]]]. now injection Hh as <-.
      + destruct (String.eqb_spec h "127.0.0.1") as [-> | H2].
        * split; [|now right]. split; [discriminate|].
          intros [h [Hh [_ Hne]]]. now injection Hh as <-.
        * split; [|now left]. split; [|reflexivity].
          intros _. now exists h.
    - split; [|now right]. split; [discriminate|].
      intros [h [Hh _]]. discriminate. }
  destruct Hctx as [Hrel Hrange].
  destruct override as [url|].
  - unfold truthy. destruct (String.eqb_spec url "") as [-> | Hne]; cbn [negb].
    + split; [|tauto]. rewrite Hrel. split; [intros H; split; [now right | exact H]|].
      now intros [_ H].
    + split; [|now right; right]. split; [contradiction|].
      intros [[H | H] _]; [discriminate | now injection H].
  - split; [|tauto]. rewrite Hrel. split; [intros H; split; [now left | exact H]|].
    now intros [_ H].
Qed.

(** X2.  [sendMessage] is fulfilled only for a response that is ok and whose
    body parses, and then with that body: no other answer of the
    network is ever reported as a success. *)
Theorem sendMessage_fulfilled (rt : Api.Runtime) (fetch : Api.Fetch)
    (message : string) (data : Api.ChatResponse) :
  Api.sendMessage rt fetch message = Fulfilled data
  <-> exists status,
        fetch (Api.API_BASE_URL rt ++ "/api/chat") message
        = Fulfilled (Api.OkResponse status (Fulfilled data)).
Proof.
  split.
  - unfold Api.sendMessage, Api.sendMessage_try.
    destruct (fetch (Api.API_BASE_URL rt ++ "/api/chat") message)
      as [[status json | status json] | [text|]]; cbn [await catch].
    + destruct json as [data' | [text|]]; cbn [await catch Api.sendMessage_catch].
      * intros H. injection H as ->. now exists status.
      * destruct (includes text "fetch" || includes text "Failed to fetch");
          discriminate.
      * discriminate.
    + destruct (Api.errorDataOf status json) as [errorData | reason].
      * cbn [await catch throw_Error Api.sendMessage_catch].
        destruct (includes _ "fetch" || includes _ "Failed to fetch"); discriminate.
      * cbn [await catch]. destruct reason as [text|]; cbn [Api.sendMessage_catch].
        -- destruct (includes text "fetch" || includes text "Failed to fetch");
             discriminate.
        -- discriminate.
    + cbn [Api.sendMessage_catch].
      destruct (includes text "fetch" || includes text "Failed to fetch"); discriminate.
    + discriminate.
  - intros [status H]. unfold Api.sendMessage, Api.sendMessage_try. now rewrite H.
Qed.

(** X3.  A response that is ok but whose body does not parse makes
    [sendMessage] fail with the parser's own error: the classifier is
    not applied on this path, so the message is not translated even if
    it contains a trigger of the table (unless it mentions [fetch], see
    above). *)
Theorem sendMessage_ok_unparsable (rt : Api.Runtime) (fetch : Api.Fetch)
    (message : string) (status : nat) (reason : Thrown) :
  fetch (Api.API_BASE_URL rt ++ "/api/chat") message
    = Fulfilled (Api.OkResponse status (Rejected reason)) ->
  (forall text, reason = ErrorObject text -> includes text "fetch" = false ->
     Api.sendMessage rt fetch message = Rejected (ErrorObject text))
  /\ (reason = OtherValue ->
      Api.sendMessage rt fetch message
      = Rejected (ErrorObject "An unexpected error occurred")).
Proof.
  intros H. unfold Api.sendMessage, Api.sendMessage_try. rewrite H.
  cbn [await catch]. split.
  - intros text -> Hno. cbn [Api.sendMessage_catch]. now rewrite catch_test, Hno.
  - now intros ->.
Qed.

Lemma sendMessage_ok_unparsable_witness :
  Api.sendMessage
    {| Api.NEXT_PUBLIC_API_URL := None; Api.hostname := Some "localhost" |}
    (fun _ _ => Fulfilled (Api.OkResponse 200
                  (Rejected (ErrorObject "Unexpected token q in JSON: quota"))))
    "hello"
  = Rejected (ErrorObject "Unexpected token q in JSON: quota")
  /\ Api.parseErrorMessage "Unexpected token q in JSON: quota" = Api.quota_message.
Proof.
  split; [|reflexivity].
  apply (proj1 (sendMessage_ok_unparsable
                  {| Api.NEXT_PUBLIC_API_URL := None; Api.hostname := Some "localhost" |}
                  (fun _ _ => Fulfilled (Api.OkResponse 200
                     (Rejected (ErrorObject "Unexpected token q in JSON: quota"))))
                  "hello" 200 (ErrorObject "Unexpected token q in JSON: quota") eq_refl));
    reflexivity.
Defined.

(** X4.  A response that is not ok and whose body is not JSON, or has
    the declared shape of a [ChatError] (an object whose [detail] is a
    string, or is absent), makes [sendMessage] fail with an [Error]
    whose message is never empty, and is the connectivity message, one
    of the four fixed messages, one of the two status texts, or the
    detail of the parsed body as it came. *)
Theorem sendMessage_failed_message (rt : Api.Runtime) (fetch : Api.Fetch)
    (message : string) (status : nat) (json : Promise Api.ChatError) :
  fetch (Api.API_BASE_URL rt ++ "/api/chat") message
    = Fulfilled (Api.FailedResponse status json) ->
  exists text,
    Api.sendMessage rt fetch message = Rejected (ErrorObject text)
    /\ text <> ""
    /\ (In text [Api.connectivity_message; Api.quota_message; Api.api_key_message;
                 Api.invalid_key_message; Api.rate_limit_message;
                 "HTTP error! status: " ++ show status;
                 "Request failed with status " ++ show status]
        \/ json = Fulfilled {| Api.detail := Some text |}).
Proof.
  intros Hfetch.
  assert (Hdata : exists errorData,
            Api.errorDataOf status json = Fulfilled errorData
            /\ let d := Api.errorDetailOf status errorData in
               d <> ""
               /\ (d = "HTTP error! status: " ++ show status
                   \/ d = "Request failed with status " ++ show status
                   \/ json = Fulfilled {| Api.detail := Some d |})).
  { destruct json as [[[d|]] | reason].
    - exists {| Api.detail := Some d |}. split; [reflexivity|].
      unfold Api.errorDetailOf, or_else, truthy. cbn [Api.detail].
      destruct (String.eqb_spec d "") as [-> | Hne]; cbn [negb].
      + split; [discriminate | tauto].
      + split; [exact Hne | tauto].
    - exists {| Api.detail := None |}. split; [reflexivity|].
      cbn. split; [discriminate | tauto].
    - eexists. split; [reflexivity|]. cbn. split; [discriminate | tauto]. }
  destruct Hdata as [errorData [Hdata [Hne Hd]]].
  rewrite (sendMessage_failed rt fetch message status json errorData Hfetch Hdata).
  cbn zeta.
  set (d := Api.errorDetailOf status errorData) in *.
  destruct (includes (Api.parseErrorMessage d) "fetch").
  - exists Api.connectivity_message. split; [reflexivity|].
    split; [discriminate|]. left. cbn. tauto.
  - exists (Api.parseErrorMessage d). split; [reflexivity|].
    destruct (parseErrorMessage_range d) as [-> | Hfixed].
    + split; [exact Hne|]. destruct Hd as [Hd | [Hd | Hd]].
      * left. rewrite Hd. cbn. tauto.
      * left. rewrite Hd. cbn. tauto.
      * now right.
    + split.
      * cbn in Hfixed. destruct Hfixed as [<- | [<- | [<- | [<- | []]]]]; discriminate.
      * left. cbn in Hfixed |- *. tauto.
Qed.

Lemma sendMessage_failed_message_witness :
  exists text,
    Api.sendMessage
      {| Api.NEXT_PUBLIC_API_URL := None; Api.hostname := Some "localhost" |}
      (fun _ _ => Fulfilled (Api.FailedResponse 404
                    (Fulfilled {| Api.detail := Some "Not Found" |})))
      "hello"
    = Rejected (ErrorObject text)
    /\ text <> "".
Proof.
  destruct (sendMessage_failed_message
              {| Api.NEXT_PUBLIC_API_URL := None; Api.hostname := Some "localhost" |}
              (fun _ _ => Fulfilled (Api.FailedResponse 404
                            (Fulfilled {| Api.detail := Some "Not Found" |})))
              "hello" 404 (Fulfilled {| Api.detail := Some "Not Found" |}) eq_refl)
    as [text [Hsend [Hne _]]].
  exists text. now split.
Defined.

End ApiOutcomes.

(* ===================================================================== *)
(** ** More on the conversation controller *)
(* ===================================================================== *)

Section Sessions.
Import Js Notions Shapes.

Lemma run_app (rt : Api.Runtime) (first second : list Page.Event) (p : Page.Session) :
  Page.run rt (first ++ second)%list p = Page.run rt second (Page.run rt first p).
Proof. unfold Page.run. apply fold_left_app. Qed.

Lemma lastMessage_snoc (log : list Page.Message) (m : Page.Message) :
  lastMessage (log ++ [m])%list = Some m.
Proof. unfold lastMessage. now rewrite rev_unit. Qed.

Lemma turns_snoc (n : nat) :
  (turns n ++ [Page.user; Page.assistant])%list = turns (S n).
Proof.
  induction n as [|n IH]; [reflexivity|].
  cbn [turns app] in *. now rewrite IH.
Qed.

Lemma length_turns (n : nat) : length (turns n) = 2 * n.
Proof. induction n as [|n IH]; cbn [turns length]; lia. Qed.

(** The four ways a step goes from a coherent session: nothing happens
    (a refused submission, an answer nobody waits for), the text field
    changes, a submission is accepted, the request is settled. *)
Lemma step_cases (rt : Api.Runtime) (ev : Page.Event) (p : Page.Session) :
  coherent p ->
  Page.step rt ev p = p
  \/ (exists value,
        Page.step rt ev p
        = {| Page.view := Page.setInput value (Page.view p);
             Page.inFlight := Page.inFlight p |})
  \/ (exists now,
        Page.isLoading (Page.view p) = false
        /\ blank (Page.input (Page.view p)) = false
        /\ Page.step rt ev p
           = {| Page.view :=
                  {| Page.messages :=
                       (Page.messages (Page.view p)
                        ++ [ {| Page.role := Page.user;
                                Page.content := trim (Page.input (Page.view p));
                                Page.timestamp := now |} ])%list;
                     Page.input := "";
                     Page.isLoading := true;
                     Page.error := None |};
                Page.inFlight := [trim (Page.input (Page.view p))] |})
  \/ (exists now outcome,
        Page.isLoading (Page.view p) = true
        /\ Page.step rt ev p
           = {| Page.view := Page.handleSubmit_settle now outcome (Page.view p);
                Page.inFlight := [] |}).
Proof.
  intros Hp. destruct ev as [now | value | now answer]; cbn [Page.step].
  - destruct (blank (Page.input (Page.view p))) eqn:Hb.
    { left. rewrite dispatch_refused by (now left). now destruct p. }
    destruct Hp as [(Hl & _) | (Hl & Hf & _)].
    { left. rewrite dispatch_refused by (now right). now destruct p. }
    right; right; left. exists now. rewrite (dispatch_accepted now _ Hb Hl), Hf.
    now repeat split.
  - right; left. now exists value.
  - destruct Hp as [(Hl & [message Hf] & _) | (_ & Hf & _)]; rewrite Hf.
    + right; right; right. now eexists now, _.
    + now left.
Qed.

(** A property that every step keeps on coherent sessions holds along
    every run. *)
Lemma run_invariant (rt : Api.Runtime) (I : Page.Session -> Prop) :
  (forall ev p, coherent p -> I p -> I (Page.step rt ev p)) ->
  forall events p, coherent p -> I p -> I (Page.run rt events p).
Proof.
  intros Hstep events. unfold Page.run.
  induction events as [|ev events IH]; intros p Hp HI; cbn [fold_left];
    [exact HI|].
  apply IH; [now apply coherent_step | now apply Hstep].
Qed.

(** X5.  The log is the greeting followed by whole turns, a user entry and
    the assistant's answer to it, and by the pending user entry while
    a request is out: roles alternate, and the log has an odd number of
    entries exactly when the page is idle. *)
Theorem log_alternates (rt : Api.Runtime) (now : Page.Date) (events : list Page.Event) :
  let p := Page.run rt events (Page.start now) in
  exists n,
    map Page.role (Page.messages (Page.view p))
    = (Page.assistant :: turns n
       ++ if Page.isLoading (Page.view p) then [Page.user] else [])%list
    /\ length (Page.messages (Page.view p))
       = 1 + 2 * n + (if Page.isLoading (Page.view p) then 1 else 0).
Proof.
  set (I := fun p : Page.Session =>
              exists n,
                map Page.role (Page.messages (Page.view p))
                = (Page.assistant :: turns n
                   ++ if Page.isLoading (Page.view p) then [Page.user] else [])%list).
  assert (HI : I (Page.run rt events (Page.start now))).
  { apply run_invariant; [| apply coherent_start | now exists 0].
    intros ev p Hp [n Hn].
    destruct (step_cases rt ev p Hp)
      as [-> | [[value ->] | [(t & Hl & _ & ->) | (t & outcome & Hl & ->)]]].
    - now exists n.
    - now exists n.
    - exists n. cbn [Page.view Page.messages Page.isLoading].
      rewrite map_app, Hn, Hl, app_nil_r. reflexivity.
    - exists (S n). rewrite settle_state. cbn [Page.view Page.messages Page.isLoading].
      rewrite map_app, Hn, Hl, <- turns_snoc, app_nil_r.
      cbn [map Page.role app]. now rewrite <- app_assoc. }
  cbv zeta. destruct HI as [n Hn]. exists n. split; [exact Hn|].
  rewrite <- (length_map Page.role), Hn. cbn [length].
  rewrite length_app, length_turns.
  destruct (Page.isLoading _); cbn [length]; lia.
Qed.

(** X6.  The log only grows at its end: whatever happens, the entries that
    were there stay where they were and as they were.  In particular
    the greeting stays the first entry. *)
Theorem log_append_only :
  (forall (rt : Api.Runtime) (events : list Page.Event) (p : Page.Session),
     exists more,
       Page.messages (Page.view (Page.run rt events p))
       = (Page.messages (Page.view p) ++ more)%list)
  /\ (forall (rt : Api.Runtime) (now : Page.Date) (events : list Page.Event),
        exists more,
          Page.messages (Page.view (Page.run rt events (Page.start now)))
          = {| Page.role := Page.assistant; Page.content := Page.greeting;
               Page.timestamp := now |} :: more).
Proof.
  assert (Hrun : forall rt events p,
            exists more,
              Page.messages (Page.view (Page.run rt events p))
              = (Page.messages (Page.view p) ++ more)%list).
  { intros rt events. unfold Page.run.
    induction events as [|ev events IH]; intros p; cbn [fold_left].
    - exists []. now rewrite app_nil_r.
    - destruct (IH (Page.step rt ev p)) as [more Hmore]. rewrite Hmore.
      assert (Hstep : exists one,
                Page.messages (Page.view (Page.step rt ev p))
                = (Page.messages (Page.view p) ++ one)%list).
      { destruct ev as [now | value | now answer]; cbn [Page.step].
        - destruct (blank (Page.input (Page.view p))) eqn:Hb;
            [|destruct (Page.isLoading (Page.view p)) eqn:Hl].
          + rewrite dispatch_refused by (now left). exists []. now rewrite app_nil_r.
          + rewrite dispatch_refused by (now right). exists []. now rewrite app_nil_r.
          + rewrite (dispatch_accepted now _ Hb Hl). now eexists.
        - exists []. cbn. now rewrite app_nil_r.
        - destruct (Page.inFlight p) as [|message others].
          + exists []. now rewrite app_nil_r.
          + cbn [Page.view]. rewrite settle_state. now eexists. }
      destruct Hstep as [one ->]. exists (one ++ more)%list. now rewrite app_assoc. }
  split; [exact Hrun|].
  intros rt now events. destruct (Hrun rt events (Page.start now)) as [more ->].
  now exists more.
Qed.

(** X7.  Every request that is out carries a text that is not blank and has
    no white space around it, and that text is the content of the user
    entry the log ends with: [sendMessage] is never called with an
    empty message. *)
Theorem request_is_trimmed_input (rt : Api.Runtime) (now : Page.Date)
    (events : list Page.Event) (message : string) :
  In message (Page.inFlight (Page.run rt events (Page.start now))) ->
  blank message = false
  /\ trim message = message
  /\ startsWithWhiteSpace message = false
  /\ endsWithWhiteSpace message = false
  /\ exists t,
       lastMessage (Page.messages (Page.view (Page.run rt events (Page.start now))))
       = Some {| Page.role := Page.user; Page.content := message;
                 Page.timestamp := t |}.
Proof.
  revert message.
  apply (run_invariant rt
           (fun p => forall message, In message (Page.inFlight p) ->
              blank message = false
              /\ trim message = message
              /\ startsWithWhiteSpace message = false
              /\ endsWithWhiteSpace message = false
              /\ exists t,
                   lastMessage (Page.messages (Page.view p))
                   = Some {| Page.role := Page.user; Page.content := message;
                             Page.timestamp := t |}));
    [| apply coherent_start | intros message []].
  intros ev p Hp HI.
  destruct (step_cases rt ev p Hp)
    as [-> | [[value ->] | [(t & Hl & Hb & ->) | (t & outcome & Hl & ->)]]].
  - exact HI.
  - exact HI.
  - cbn [Page.view Page.messages Page.inFlight].
    intros message [<- | []].
    destruct (trim_spec (Page.input (Page.view p))) as (_ & Hlead & Htrail & Hidem).
    split; [|split; [exact Hidem | split; [exact Hlead | split; [exact Htrail|]]]].
    + destruct (blank (trim (Page.input (Page.view p)))) eqn:E; [|reflexivity].
      apply trim_empty in E. rewrite Hidem in E.
      apply trim_empty in E. congruence.
    + exists t. apply lastMessage_snoc.
  - intros message [].
Qed.

Lemma request_is_trimmed_input_witness :
  blank "I'm stressed" = false /\ trim "I'm stressed" = "I'm stressed".
Proof.
  destruct (request_is_trimmed_input
              {| Api.NEXT_PUBLIC_API_URL := None; Api.hostname := Some "localhost" |}
              0 [Page.Change "  I'm stressed  "; Page.Submit 1] "I'm stressed"
              (or_introl eq_refl)) as (Hb & Ht & _).
  now split.
Defined.

(** X8.  The error slot and the log agree: no error stands while a request
    is out, and an error that stands is the one the last entry of the
    log narrates. *)
Theorem error_matches_log (rt : Api.Runtime) (now : Page.Date) (events : list Page.Event) :
  let p := Page.run rt events (Page.start now) in
  (Page.isLoading (Page.view p) = true -> Page.error (Page.view p) = None)
  /\ (forall text,
        Page.error (Page.view p) = Some text ->
        Page.isLoading (Page.view p) = false
        /\ exists t,
             lastMessage (Page.messages (Page.view p))
             = Some {| Page.role := Page.assistant;
                       Page.content := Page.userFriendlyError text;
                       Page.timestamp := t |}).
Proof.
  cbv zeta.
  apply (run_invariant rt
           (fun p =>
              (Page.isLoading (Page.view p) = true -> Page.error (Page.view p) = None)
              /\ (forall text,
                    Page.error (Page.view p) = Some text ->
                    Page.isLoading (Page.view p) = false
                    /\ exists t,
                         lastMessage (Page.messages (Page.view p))
                         = Some {| Page.role := Page.assistant;
                                   Page.content := Page.userFriendlyError text;
                                   Page.timestamp := t |})));
    [| apply coherent_start | split; [discriminate | intros text; discriminate]].
  intros ev p Hp [Hnone Hsome].
  destruct (step_cases rt ev p Hp)
    as [-> | [[value ->] | [(t & Hl & Hb & ->) | (t & outcome & Hl & ->)]]].
  - now split.
  - now split.
  - cbn [Page.view Page.error Page.isLoading]. split; [reflexivity|].
    intros text; discriminate.
  - rewrite settle_state. cbn [Page.view Page.error Page.isLoading Page.messages].
    split; [discriminate|]. intros text Htext. split; [reflexivity|].
    destruct outcome as [response | err].
    + rewrite (Hnone Hl) in Htext. discriminate.
    + injection Htext as <-. exists t. apply lastMessage_snoc.
Qed.

(** X9.  No answer of the network is fatal: once the request is settled, in
    whatever way, a text that is not blank can be typed and submitted;
    the submission is accepted, empties the text field, clears the error
    that stood and sends the trimmed text. *)
Theorem stays_interactive (rt : Api.Runtime) (now : Page.Date)
    (events : list Page.Event) (settled submitted : Page.Date)
    (answer : Promise Api.Response) (value : string) :
  blank value = false ->
  let p :=
    Page.run rt
      (events ++ [Page.Settle settled answer; Page.Change value; Page.Submit submitted])
      (Page.start now) in
  Page.inFlight p = [trim value]
  /\ Page.isLoading (Page.view p) = true
  /\ Page.error (Page.view p) = None
  /\ Page.input (Page.view p) = "".
Proof.
  intros Hb. cbv zeta. rewrite run_app.
  pose proof (coherent_run rt events (Page.start now) (coherent_start now)) as Hp.
  set (p := Page.run rt events (Page.start now)) in *.
  assert (Hidle : coherent (Page.step rt (Page.Settle settled answer) p)
                  /\ Page.isLoading (Page.view (Page.step rt (Page.Settle settled answer) p))
                     = false
                  /\ Page.inFlight (Page.step rt (Page.Settle settled answer) p) = []).
  { split; [now apply coherent_step|].
    destruct Hp as [(Hl & [message Hf] & _) | (Hl & Hf & _)];
      cbn [Page.step]; rewrite Hf.
    - now rewrite settle_state.
    - now split. }
  destruct Hidle as (_ & Hl & Hf).
  unfold Page.run. cbn [fold_left].
  destruct (Page.step rt (Page.Settle settled answer) p) as [v inFlight].
  cbn [Page.view Page.inFlight] in Hl, Hf. subst inFlight.
  cbn [Page.step Page.view Page.inFlight].
  rewrite dispatch_accepted by (cbn; assumption).
  now repeat split.
Qed.

Lemma stays_interactive_witness :
  let p :=
    Page.run {| Api.NEXT_PUBLIC_API_URL := None; Api.hostname := Some "localhost" |}
      ([Page.Change "hello"; Page.Submit 1]
       ++ [Page.Settle 2 (Rejected (ErrorObject "Failed to fetch"));
           Page.Change " once more "; Page.Submit 3])
      (Page.start 0) in
  Page.inFlight p = ["once more"]
  /\ Page.error (Page.view p) = None.
Proof.
  destruct (stays_interactive
              {| Api.NEXT_PUBLIC_API_URL := None; Api.hostname := Some "localhost" |}
              0 [Page.Change "hello"; Page.Submit 1] 2 3
              (Rejected (ErrorObject "Failed to fetch")) " once more " eq_refl)
    as (Hf & _ & He & _).
  split; [exact Hf | exact He].
Defined.

End Sessions.

(* ===================================================================== *)
(** ** The page on screen *)
(* ===================================================================== *)

Section Screen.
Import Js Notions Shapes.

Lemma append_empty (s : string) : s ++ "" = s.
Proof. induction s as [|c s IH]; cbn [append]; [reflexivity | now rewrite IH]. Qed.

(** The narration of an error contains the message of the error as it
    is. *)
Lemma narration_contains_message (text : string) :
  includes (Page.userFriendlyError text) text = true.
Proof.
  unfold Page.userFriendlyError. apply includes_spec.
  destruct (includes text "quota" || includes text "billing");
    [|destruct (includes text "API key")].
  - eexists _, "". now rewrite append_empty.
  - eexists _, "". now rewrite append_empty.
  - now eexists _, _.
Qed.

(** X10.  The Send button is disabled exactly when [handleSubmit] would
    return at its guard, and enabled exactly when it would send the
    trimmed text: what the page offers and what the handler accepts are
    the same. *)
Theorem sendButton_matches_guard (s : Page.State) :
  (Render.sendButtonDisabled (Render.render s) = true
   <-> forall now, Page.handleSubmit_dispatch now s = (s, None))
  /\ (Render.sendButtonDisabled (Render.render s) = false
      <-> forall now,
            snd (Page.handleSubmit_dispatch now s) = Some (trim (Page.input s))).
Proof.
  cbn [Render.render Render.sendButtonDisabled]. rewrite truthy_trim, negb_involutive.
  destruct (Page.isLoading s) eqn:Hl; [|destruct (blank (Page.input s)) eqn:Hb];
    cbn [orb].
  - split; split; try discriminate; try reflexivity.
    + intros _ now. apply dispatch_refused. now right.
    + intros H. specialize (H 0).
      rewrite dispatch_refused in H by (now right). discriminate.
  - split; split; try discriminate; try reflexivity.
    + intros _ now. apply dispatch_refused. now left.
    + intros H. specialize (H 0).
      rewrite dispatch_refused in H by (now left). discriminate.
  - split; split; try discriminate; try reflexivity.
    + intros H. specialize (H 0).
      rewrite (dispatch_accepted 0 s Hb Hl) in H. discriminate.
    + intros _ now. now rewrite (dispatch_accepted now s Hb Hl).
Qed.

(** X11.  The page after one turn.  Two rows have been added, [You] with the
    trimmed text and [Coach] with the reply or the narration; the
    placeholder is gone, the text field is empty and the button is
    disabled until something is typed.  After a reply there is no
    banner, whatever error stood before; after a failure the banner
    shows the message of the error, unless that message is empty (the
    narration in the [Coach] row contains the message in both cases). *)
Theorem view_after_turn (send : string -> Promise Api.ChatResponse)
    (submitted settled : Page.Date) (s : Page.State) :
  blank (Page.input s) = false -> Page.isLoading s = false ->
  let outcome := send (trim (Page.input s)) in
  let after := Render.render (Page.handleSubmit send submitted settled s) in
  Render.rows after
  = (Render.rows (Render.render s)
     ++ [ {| Render.className := Render.userMessage; Render.messageRole := "You";
             Render.messageText := trim (Page.input s);
             Render.messageTime := submitted |};
          {| Render.className := Render.assistantMessage; Render.messageRole := "Coach";
             Render.messageText := answerText outcome;
             Render.messageTime := settled |} ])%list
  /\ Render.loadingIndicator after = false
  /\ Render.inputValue after = ""
  /\ Render.sendButtonDisabled after = true
  /\ Render.errorBanner after
     = match outcome with
       | Fulfilled _ => None
       | Rejected err => if truthy (messageOf err) then Some (messageOf err) else None
       end
  /\ (forall err, outcome = Rejected err ->
      includes (answerText outcome) (messageOf err) = true).
Proof.
  intros Hb Hl outcome after.
  assert (Hfinal : Page.handleSubmit send submitted settled s
                   = {| Page.messages :=
                          ((Page.messages s
                            ++ [ {| Page.role := Page.user;
                                    Page.content := trim (Page.input s);
                                    Page.timestamp := submitted |} ])
                           ++ [ {| Page.role := Page.assistant;
                                   Page.content := answerText outcome;
                                   Page.timestamp := settled |} ])%list;
                        Page.input := "";
                        Page.isLoading := false;
                        Page.error := match outcome with
                                      | Fulfilled _ => None
                                      | Rejected err => Some (messageOf err)
                                      end |}).
  { unfold Page.handleSubmit.
    now rewrite (dispatch_accepted submitted s Hb Hl), settle_state. }
  unfold after. rewrite Hfinal. clear after Hfinal.
  cbn [Render.render Render.rows Render.loadingIndicator Render.inputValue
       Render.sendButtonDisabled Render.errorBanner
       Page.messages Page.input Page.isLoading Page.error].
  assert (Hbanner : match match outcome with
                          | Fulfilled _ => None
                          | Rejected err => Some (messageOf err)
                          end with
                    | Some e => if truthy e then Some e else None
                    | None => None
                    end
                    = match outcome with
                      | Fulfilled _ => None
                      | Rejected err =>
                          if truthy (messageOf err) then Some (messageOf err) else None
                      end) by (now destruct outcome).
  rewrite Hbanner. clear Hbanner.
  split; [|split; [reflexivity | split; [reflexivity | split; [reflexivity |
           split; [reflexivity|]]]]].
  - rewrite !map_app, <- app_assoc. reflexivity.
  - intros err ->. cbn [answerText]. apply narration_contains_message.
Qed.

Lemma view_after_turn_witness :
  let s := {| Page.messages := Page.messages (Page.initial 0);
              Page.input := "hello"; Page.isLoading := false;
              Page.error := Some "Rate limit exceeded. Please wait a moment and try again." |} in
  Render.errorBanner
    (Render.render (Page.handleSubmit (fun _ => Fulfilled {| Api.reply := "Hi!" |}) 1 2 s))
  = None
  /\ Render.errorBanner
       (Render.render (Page.handleSubmit (fun _ => Rejected (ErrorObject "")) 1 2 s))
     = None.
Proof.
  intros s. split.
  - exact (proj1 (proj2 (proj2 (proj2 (proj2
             (view_after_turn (fun _ => Fulfilled {| Api.reply := "Hi!" |}) 1 2 s
                eq_refl eq_refl)))))).
  - exact (proj1 (proj2 (proj2 (proj2 (proj2
             (view_after_turn (fun _ => Rejected (ErrorObject "")) 1 2 s
                eq_refl eq_refl)))))).
Defined.



End Screen.

(* ===================================================================== *)
(** ** Time stamps *)
(* ===================================================================== *)

Section TimeStamps.
Import Js Shapes.

Lemma sorted_snoc (l : list nat) (x : nat) :
  Sorted le l -> Forall (fun a => a <= x) l -> Sorted le (l ++ [x]).
Proof.
  induction l as [|a l IH]; intros Hs Hall; cbn [app].
  - repeat constructor.
  - apply Sorted_inv in Hs as [Hs Hhd]. inversion Hall as [|? ? Ha Hl]; subst.
    constructor; [now apply IH|].
    destruct l as [|b l]; cbn [app]; constructor.
    + exact Ha.
    + now apply HdRel_inv in Hhd.
Qed.

(** Appending an entry stamped with the present instant keeps the log
    in order of time. *)
Lemma stamps_snoc (log : list Page.Message) (m : Page.Message) (t : Page.Date) :
  Sorted le (map Page.timestamp log) ->
  Forall (fun a => a <= t) (map Page.timestamp log) ->
  Page.timestamp m = t ->
  Sorted le (map Page.timestamp (log ++ [m]))
  /\ Forall (fun a => a <= t) (map Page.timestamp (log ++ [m])).
Proof.
  intros Hs Hall Hm. rewrite map_app. cbn [map]. rewrite Hm. split.
  - now apply sorted_snoc.
  - apply Forall_app. split; [exact Hall | now repeat constructor].
Qed.

Lemma stamps_later (l : list nat) (t t' : nat) :
  t <= t' -> Forall (fun a => a <= t) l -> Forall (fun a => a <= t') l.
Proof.
  intros Hle. apply Forall_impl. intros a Ha. lia.
Qed.

Lemma stamps_run (rt : Api.Runtime) (events : list Page.Event) :
  forall (t : Page.Date) (p : Page.Session),
    Sorted le (map Page.timestamp (Page.messages (Page.view p))) ->
    Forall (fun a => a <= t) (map Page.timestamp (Page.messages (Page.view p))) ->
    ticking t events = true ->
    Sorted le (map Page.timestamp (Page.messages (Page.view (Page.run rt events p)))).
Proof.
  unfold Page.run.
  induction events as [|ev events IH]; intros t p Hs Hall Htick; cbn [fold_left];
    [exact Hs|].
  destruct ev as [now | value | now answer]; cbn [ticking] in Htick.
  - apply andb_true_iff in Htick as [Hle Htick]. apply Nat.leb_le in Hle.
    apply (IH now); [| | exact Htick]; cbn [Page.step];
      (destruct (blank (Page.input (Page.view p))) eqn:Hb;
       [ rewrite dispatch_refused by (now left)
       | destruct (Page.isLoading (Page.view p)) eqn:Hl;
         [ rewrite dispatch_refused by (now right)
         | rewrite (dispatch_accepted now _ Hb Hl) ] ]);
      cbn [Page.view Page.messages];
      try assumption; try (now apply (stamps_later _ t));
      now apply (stamps_snoc _ _ now); [| apply (stamps_later _ t) |].
  - apply (IH t); [exact Hs | exact Hall | exact Htick].
  - apply andb_true_iff in Htick as [Hle Htick]. apply Nat.leb_le in Hle.
    apply (IH now); [| | exact Htick]; cbn [Page.step];
      (destruct (Page.inFlight p) as [|message others];
       [| cbn [Page.view]; rewrite settle_state; cbn [Page.messages] ]);
      try assumption; try (now apply (stamps_later _ t));
      now apply (stamps_snoc _ _ now); [| apply (stamps_later _ t) |].
Qed.

(** X13.  When the instants the page reads never go back, the time stamps of
    the log are in order: every entry is stamped when it is appended,
    and no entry is stamped again. *)
Theorem timestamps_sorted (rt : Api.Runtime) (now : Page.Date)
    (events : list Page.Event) :
  ticking now events = true ->
  Sorted le (map Page.timestamp
               (Page.messages (Page.view (Page.run rt events (Page.start now))))).
Proof.
  apply stamps_run; cbn; repeat constructor.
Qed.

Lemma timestamps_sorted_witness :
  Sorted le (map Page.timestamp
               (Page.messages (Page.view
                  (Page.run
                     {| Api.NEXT_PUBLIC_API_URL := None; Api.hostname := Some "localhost" |}
                     [Page.Change "hello"; Page.Submit 5; Page.Submit 6;
                      Page.Settle 9 (Rejected (ErrorObject "Failed to fetch"))]
                     (Page.start 3))))).
Proof.
  apply timestamps_sorted. reflexivity.
Defined.

End TimeStamps.
